(** * Depth navigation and gesture control of the floating gallery

    A shallow embedding of the navigation core of the gallery
    (src/lib/utils.ts, src/components/FloatingImage.tsx, src/App.tsx,
    src/components/HandController.tsx) and the properties of it that the
    specification states.

    Conventions of the embedding.
    - A JavaScript [number] is an exact rational ([Q]); the rounding of
      binary64 is outside the model, and [Infinity] is a separate
      constructor where the code uses it.  Array indices are integers.
    - [Math.sqrt] comes from the runtime; it is a parameter of the
      gesture code, and [sqrt_fix] is one rounded square root to run it.
    - React state is a record; every handler is one atomic transition
      that reads the state of the latest render.
    - A [TypeError] (a property read on [undefined]) is [None]. *)

From Stdlib Require Import String ZArith QArith Qabs Qround List Bool Lia Lqa.
Import ListNotations.

Open Scope Q_scope.

(** ** JavaScript numbers *)

Module JS.

(** [a < b] on numbers. *)
Definition ltb (a b : Q) : bool :=
  match a ?= b with Lt => true | _ => false end.

(** [a > b] on numbers. *)
Definition gtb (a b : Q) : bool := ltb b a.

Definition Math_abs (a : Q) : Q := Qabs a.

Definition Math_sign (a : Q) : Q :=
  match a ?= 0 with Lt => -1 | Eq => 0 | Gt => 1 end.

(** [Math.pow(a, 2)] *)
Definition Math_pow2 (a : Q) : Q := a * a.

(** A number that may be [Infinity] (the initial [minDistance]). *)
Inductive ext : Type :=
| Infinity
| Fin (q : Q).

(** [a < m] where [m] may be [Infinity]. *)
Definition lt_ext (a : Q) (m : ext) : bool :=
  match m with
  | Infinity => true
  | Fin q => ltb a q
  end.

(** [m < b] where [m] may be [Infinity]. *)
Definition ext_lt (m : ext) (b : Q) : bool :=
  match m with
  | Infinity => false
  | Fin q => ltb q b
  end.

(** [a || b] on numbers: [a] unless it is falsy, that is zero. *)
Definition or_else (a b : Q) : Q :=
  if Qeq_bool a 0 then b else a.

End JS.

(** Errors: [None] is a thrown [TypeError]. *)
Definition bind {A B : Type} (c : option A) (k : A -> option B) : option B :=
  match c with
  | Some a => k a
  | None => None
  end.

Notation "x <- c ;; k" := (bind c (fun x => k))
  (at level 61, c at next level, right associativity).

(** ** src/lib/utils.ts *)

(** The placement of one item: [{ x, y, z, rotation, scale }]. *)
Module Position.
Record t : Type := mk {
  x : Q;
  y : Q;
  z : Q;
  rotation : Q;
  scale : Q
}.
End Position.

Module Utils.

(** The distance between items on the Z axis: the 400 of [idx * -400]. *)
Definition stepDistance : Q := 400.

(** [generateRandomPosition(idx)], for an integer [idx]; [%] is the
    truncating remainder of JavaScript. *)
Definition generateRandomPosition (idx : Z) : Position.t :=
  let seed := (idx * 1337)%Z in
  let x := (inject_Z (Z.rem seed 100) - 50) * 15 in
  let y := (inject_Z (Z.rem (seed * 2) 100) - 50) * 10 in
  let z := inject_Z idx * - stepDistance in
  let rotation := inject_Z (Z.rem seed 30) - 15 in
  let scale := 0.8 + inject_Z (Z.rem seed 40) / 100 in
  Position.mk x y z rotation scale.

End Utils.

(** ** src/components/FloatingImage.tsx *)

Module FloatingImage.

(** Modelled from the spec: the clamping of [useTransform] (framer-motion),
    by which the output holds its end values beyond the breakpoints. *)
Definition clamp (min max v : Q) : Q :=
  if JS.gtb v max then max else if JS.ltb v min then min else v.

(** Modelled from the spec: the position of [value] within one segment of
    the breakpoints of [useTransform] (framer-motion). *)
Definition progress (from to value : Q) : Q :=
  let toFromDifference := to - from in
  if Qeq_bool toFromDifference 0 then 1 else (value - from) / toFromDifference.

(** Modelled from the spec: the linear interpolation of [useTransform]
    (framer-motion) between two output values. *)
Definition mixNumber (from to p : Q) : Q := from + (to - from) * p.

(** Modelled from the spec: the range form of [useTransform]
    (framer-motion, a dependency that is not under src/), which section
    4.2 describes as piecewise-linear interpolation over breakpoints,
    held constant outside them.  The segment of [v] is the first one
    whose right end exceeds [v], or the last one. *)
Fixpoint interpolator (input output : list Q) (v : Q) : Q :=
  match input, output with
  | a :: ((b :: rest) as input'), oa :: ((ob :: _) as output') =>
      match rest with
      | [] => mixNumber oa ob (progress a b v)
      | _ :: _ =>
          if JS.ltb v b then mixNumber oa ob (progress a b v)
          else interpolator input' output' v
      end
  | _, o :: _ => o
  | _, [] => 0
  end.

(** Modelled from the spec: [useTransform(value, input, output)]
    (framer-motion), clamped piecewise-linear interpolation. *)
Definition useTransform (input output : list Q) (v : Q) : Q :=
  interpolator input output (clamp (hd 0 input) (last input 0) v).

(** [const z = useTransform(currentZ, value => position.z + value)] *)
Definition z (position : Position.t) (currentZ : Q) : Q :=
  Position.z position + currentZ.

(** [useTransform(z, [-2000, -500, 0, 400], [0, 1, 1, 0])] *)
Definition opacity (z : Q) : Q :=
  useTransform [-2000; -500; 0; 400] [0; 1; 1; 0] z.

(** [useTransform(z, [-2000, 0], [0.5, 1.2])] *)
Definition scale (z : Q) : Q :=
  useTransform [-2000; 0] [0.5; 1.2] z.

(** [useTransform(z, [-2000, -500, 0], [4, 0, 0])] *)
Definition blur (z : Q) : Q :=
  useTransform [-2000; -500; 0] [4; 0; 0] z.

End FloatingImage.

(** ** src/components/HandController.tsx *)

(** One hand landmark; the code reads its [x] and [y]. *)
Module Landmark.
Record t : Type := mk {
  x : Q;
  y : Q
}.
End Landmark.

Module HandController.

(** The two callbacks of [HandControllerProps], as the calls made. *)
Inductive Callback : Type :=
| onHandMove (y : Q) (isDetected : bool)
| onPinch (isPinching : bool).

(** What one run of [predictWebcam] finds.  [NotReady]: one of the guards
    before the detection branch fails (no landmarker, no video frame, no
    canvas or context).  [Results l]: [results.landmarks] is [l], one
    landmark list per hand, [None] when it is undefined. *)
Inductive Capture : Type :=
| NotReady
| Results (landmarks : option (list (list Landmark.t))).

Definition PINCH_THRESHOLD : Q := 0.25.

Section Runtime.

Variable Math_sqrt : Q -> Q.

Definition pinchDistance (thumbTip indexTip : Landmark.t) : Q :=
  Math_sqrt
    (JS.Math_pow2 (Landmark.x thumbTip - Landmark.x indexTip) +
     JS.Math_pow2 (Landmark.y thumbTip - Landmark.y indexTip)).

Definition handScale (wrist middleMCP : Landmark.t) : Q :=
  Math_sqrt
    (JS.Math_pow2 (Landmark.x wrist - Landmark.x middleMCP) +
     JS.Math_pow2 (Landmark.y wrist - Landmark.y middleMCP)).

(** The divisor [(handScale || 1)]. *)
Definition divisor (wrist middleMCP : Landmark.t) : Q :=
  JS.or_else (handScale wrist middleMCP) 1.

Definition normalizedPinch (thumbTip indexTip wrist middleMCP : Landmark.t) : Q :=
  pinchDistance thumbTip indexTip / divisor wrist middleMCP.

Definition isPinching (thumbTip indexTip wrist middleMCP : Landmark.t) : bool :=
  JS.ltb (normalizedPinch thumbTip indexTip wrist middleMCP) PINCH_THRESHOLD.

(** The pinch test of one hand: [landmarks[4]], [landmarks[8]],
    [landmarks[0]] and [landmarks[9]]. *)
Definition handPinching (landmarks : list Landmark.t) : option bool :=
  thumbTip <- nth_error landmarks 4 ;;
  indexTip <- nth_error landmarks 8 ;;
  wrist <- nth_error landmarks 0 ;;
  middleMCP <- nth_error landmarks 9 ;;
  Some (isPinching thumbTip indexTip wrist middleMCP).

(** One run of [predictWebcam]: from [wasPinchingRef.current] and the
    capture to the new [wasPinchingRef.current] and the callbacks
    called, in order. *)
Definition predictWebcam (wasPinching : bool) (frame : Capture)
  : option (bool * list Callback) :=
  match frame with
  | NotReady => Some (wasPinching, [])
  | Results (Some (landmarks :: _)) =>
      l9 <- nth_error landmarks 9 ;;
      let y := Landmark.y l9 in
      isPinching <- handPinching landmarks ;;
      if negb (Bool.eqb isPinching wasPinching)
      then Some (isPinching, [onHandMove y true; onPinch isPinching])
      else Some (wasPinching, [onHandMove y true])
  | Results _ =>
      if wasPinching
      then Some (false, [onHandMove 0.5 false; onPinch false])
      else Some (wasPinching, [onHandMove 0.5 false])
  end.

(** The detection loop over a sequence of captures. *)
Fixpoint loop (wasPinching : bool) (frames : list Capture)
  : option (bool * list Callback) :=
  match frames with
  | [] => Some (wasPinching, [])
  | f :: rest =>
      r <- predictWebcam wasPinching f ;;
      r' <- loop (fst r) rest ;;
      Some (fst r', snd r ++ snd r')
  end.

End Runtime.

(** A capture in which no hand is detected: [results.landmarks] is
    undefined or empty. *)
Definition handless (frame : Capture) : bool :=
  match frame with
  | Results None | Results (Some []) => true
  | _ => false
  end.

(** The [onPinch] calls among a sequence of callbacks. *)
Definition pinchEvents (calls : list Callback) : list bool :=
  flat_map (fun c => match c with onPinch b => [b] | onHandMove _ _ => [] end) calls.

(** The per-frame pinch boolean of a capture: that of the first hand, and
    [false] when there is no hand. *)
Definition framePinching (Math_sqrt : Q -> Q) (frame : Capture) : option bool :=
  match frame with
  | NotReady => None
  | Results (Some (landmarks :: _)) => handPinching Math_sqrt landmarks
  | Results _ => Some false
  end.

End HandController.

(** A square root rounded down to eight decimals, to run the gesture code. *)
Definition sqrt_fix (q : Q) : Q :=
  Z.sqrt (Qnum q * 10 ^ 16 / Zpos (Qden q)) # 10 ^ 8.

(** ** src/App.tsx *)

Module App.

(** The sweet spot of the pinch-open scan. *)
Definition SWEET_SPOT_Z : Q := -200.

(** The event sources of the component other than the hand callbacks. *)
Inductive UIEvent : Type :=
| AnimationFrame
| PointerDown (clientY : Q)
| PointerMove (clientY : Q)
| PointerUp
| Wheel (deltaY : Q)
| ModalClose
| SpringUpdate (v : Q).

Inductive Event : Type :=
| FromHand (c : HandController.Callback)
| FromUI (e : UIEvent).

Section Products.

(** An entry of [fashionImages] (src/data/images, opaque to the core). *)
Context {Product : Type}.

(** The component state: the two motion values ([zPosition], the camera,
    and [smoothZ], the spring that follows it and is handed to every
    [FloatingImage]), the [lastY] ref and the [useState] cells. *)
Record State : Type := mkState {
  zPosition : Q;
  smoothZ : Q;
  isDragging : bool;
  lastY : Q;
  handVelocity : Q;
  isHandDetected : bool;
  isPinching : bool;
  selectedProduct : option Product;
  isModalOpen : bool
}.

Definition initial : State :=
  mkState 0 0 false 0 0 false false None false.

Definition zPosition_set (v : Q) (s : State) : State :=
  mkState v (smoothZ s) (isDragging s) (lastY s) (handVelocity s)
    (isHandDetected s) (isPinching s) (selectedProduct s) (isModalOpen s).

Definition smoothZ_set (v : Q) (s : State) : State :=
  mkState (zPosition s) v (isDragging s) (lastY s) (handVelocity s)
    (isHandDetected s) (isPinching s) (selectedProduct s) (isModalOpen s).

Definition setIsDragging (b : bool) (s : State) : State :=
  mkState (zPosition s) (smoothZ s) b (lastY s) (handVelocity s)
    (isHandDetected s) (isPinching s) (selectedProduct s) (isModalOpen s).

Definition lastY_set (v : Q) (s : State) : State :=
  mkState (zPosition s) (smoothZ s) (isDragging s) v (handVelocity s)
    (isHandDetected s) (isPinching s) (selectedProduct s) (isModalOpen s).

Definition setHandVelocity (v : Q) (s : State) : State :=
  mkState (zPosition s) (smoothZ s) (isDragging s) (lastY s) v
    (isHandDetected s) (isPinching s) (selectedProduct s) (isModalOpen s).

Definition setIsHandDetected (b : bool) (s : State) : State :=
  mkState (zPosition s) (smoothZ s) (isDragging s) (lastY s) (handVelocity s)
    b (isPinching s) (selectedProduct s) (isModalOpen s).

Definition setIsPinching (b : bool) (s : State) : State :=
  mkState (zPosition s) (smoothZ s) (isDragging s) (lastY s) (handVelocity s)
    (isHandDetected s) b (selectedProduct s) (isModalOpen s).

Definition setSelectedProduct (p : option Product) (s : State) : State :=
  mkState (zPosition s) (smoothZ s) (isDragging s) (lastY s) (handVelocity s)
    (isHandDetected s) (isPinching s) p (isModalOpen s).

Definition setIsModalOpen (b : bool) (s : State) : State :=
  mkState (zPosition s) (smoothZ s) (isDragging s) (lastY s) (handVelocity s)
    (isHandDetected s) (isPinching s) (selectedProduct s) b.

(** [handleHandMove(y, detected)] *)
Definition handleHandMove (s : State) (y : Q) (detected : bool) : State :=
  let s := setIsHandDetected detected s in
  if negb detected || isModalOpen s then setHandVelocity 0 s
  else
    let deadzoneThreshold := 0.15 in
    let center := 0.5 in
    let diff := center - y in
    if JS.ltb (JS.Math_abs diff) deadzoneThreshold then setHandVelocity 0 s
    else
      let direction := JS.Math_sign diff in
      let magnitude := JS.Math_abs diff - deadzoneThreshold in
      let speedMultiplier := 25 in
      setHandVelocity (direction * magnitude * speedMultiplier) s.

(** The two locals of the pinch-open scan. *)
Record Scan : Type := mkScan {
  closestImg : option Product;
  minDistance : JS.ext
}.

(** The distance of an item at depth [imgZ] from the sweet spot, seen
    from camera depth [currentCameraZ]. *)
Definition distance (currentCameraZ imgZ : Q) : Q :=
  let relativeZ := imgZ + currentCameraZ in
  JS.Math_abs (relativeZ - SWEET_SPOT_Z).

(** [fashionImages.forEach((img, i) => ...)] from index [i] on;
    [positions[i].z] throws when [positions[i]] is undefined. *)
Fixpoint forEach (positions : list Position.t) (currentCameraZ : Q)
  (imgs : list Product) (i : nat) (acc : Scan) : option Scan :=
  match imgs with
  | [] => Some acc
  | img :: rest =>
      p <- nth_error positions i ;;
      let imgZ := Position.z p in
      let distance := distance currentCameraZ imgZ in
      forEach positions currentCameraZ rest (S i)
        (if JS.lt_ext distance (minDistance acc)
         then mkScan (Some img) (JS.Fin distance)
         else acc)
  end.

(** The pinch-open scan and its cutoff: the item to open, if any. *)
Definition resolve (positions : list Position.t) (fashionImages : list Product)
  (currentCameraZ : Q) : option (option Product) :=
  r <- forEach positions currentCameraZ fashionImages 0 (mkScan None JS.Infinity) ;;
  match closestImg r with
  | Some img => if JS.ext_lt (minDistance r) 1000 then Some (Some img) else Some None
  | None => Some None
  end.

Section Gallery.

Variable fashionImages : list Product.

(** [fashionImages.map((_, i) => generateRandomPosition(i))] *)
Definition positions : list Position.t :=
  map (fun i => Utils.generateRandomPosition (Z.of_nat i))
    (seq 0 (length fashionImages)).

(** [handlePinch(pinching)] *)
Definition handlePinch (s : State) (pinching : bool) : option State :=
  let s := setIsPinching pinching s in
  if pinching then
    if isModalOpen s then Some (setIsModalOpen false s)
    else
      let currentCameraZ := zPosition s in
      sel <- resolve positions fashionImages currentCameraZ ;;
      match sel with
      | Some closestImg =>
          Some (setHandVelocity 0
                  (setIsModalOpen true
                     (setSelectedProduct (Some closestImg) s)))
      | None => Some s
      end
  else Some s.

(** The [useAnimationFrame] callback. *)
Definition onAnimationFrame (s : State) : State :=
  if JS.gtb (JS.Math_abs (handVelocity s)) 0.1 && negb (isModalOpen s)
  then zPosition_set (zPosition s + handVelocity s) s
  else s.

Definition handlePointerDown (s : State) (clientY : Q) : State :=
  if isModalOpen s then s
  else lastY_set clientY (setIsDragging true s).

Definition handlePointerMove (s : State) (clientY : Q) : State :=
  if negb (isDragging s) || isModalOpen s then s
  else
    let deltaY := clientY - lastY s in
    let s := lastY_set clientY s in
    let sensitivity := 2.5 in
    zPosition_set (zPosition s + deltaY * sensitivity) s.

(** Also the [onPointerLeave] handler. *)
Definition handlePointerUp (s : State) : State :=
  setIsDragging false s.

Definition handleWheel (s : State) (deltaY : Q) : State :=
  if isModalOpen s then s
  else zPosition_set (zPosition s + deltaY * 1.5) s.

(** [onClose] of the modal: [() => setIsModalOpen(false)]. *)
Definition onClose (s : State) : State :=
  setIsModalOpen false s.

Definition call (s : State) (c : HandController.Callback) : option State :=
  match c with
  | HandController.onHandMove y detected => Some (handleHandMove s y detected)
  | HandController.onPinch pinching => handlePinch s pinching
  end.

Definition handle (s : State) (e : UIEvent) : State :=
  match e with
  | AnimationFrame => onAnimationFrame s
  | PointerDown clientY => handlePointerDown s clientY
  | PointerMove clientY => handlePointerMove s clientY
  | PointerUp => handlePointerUp s
  | Wheel deltaY => handleWheel s deltaY
  | ModalClose => onClose s
  | SpringUpdate v => smoothZ_set v s
  end.

Definition step (s : State) (e : Event) : option State :=
  match e with
  | FromHand c => call s c
  | FromUI e => Some (handle s e)
  end.

Fixpoint run (s : State) (es : list Event) : option State :=
  match es with
  | [] => Some s
  | e :: rest => s' <- step s e ;; run s' rest
  end.

(** The callbacks of one capture, delivered in order. *)
Fixpoint calls (s : State) (cs : list HandController.Callback) : option State :=
  match cs with
  | [] => Some s
  | c :: rest => s' <- call s c ;; calls s' rest
  end.

End Gallery.

End Products.

Arguments State : clear implicits.
Arguments Scan : clear implicits.

End App.

(** ** The scene: [HandController] mounted in [App] *)

Module Scene.

Inductive Input : Type :=
| Webcam (frame : HandController.Capture)
| UI (e : App.UIEvent).

Section Mounted.

Variable Math_sqrt : Q -> Q.
Context {Product : Type}.
Variable fashionImages : list Product.

Record State : Type := mkState {
  wasPinchingRef : bool;
  app : App.State Product
}.

Definition initial : State := mkState false App.initial.

Definition step (st : State) (i : Input) : option State :=
  match i with
  | Webcam frame =>
      r <- HandController.predictWebcam Math_sqrt (wasPinchingRef st) frame ;;
      s' <- App.calls fashionImages (app st) (snd r) ;;
      Some (mkState (fst r) s')
  | UI e => Some (mkState (wasPinchingRef st) (App.handle (app st) e))
  end.

Fixpoint run (st : State) (inputs : list Input) : option State :=
  match inputs with
  | [] => Some st
  | i :: rest => st' <- step st i ;; run st' rest
  end.

End Mounted.

Arguments State : clear implicits.

End Scene.

(** ** Data for the examples *)

Module Demo.

(** A placement at depth [z]. *)
Definition at_depth (z : Q) : Position.t := Position.mk 0 0 z 0 1.

(** Five products, standing for [fashionImages]. *)
Definition gallery : list string :=
  ["coat"; "dress"; "boots"; "scarf"; "hat"]%string.

(** Three items of relative depth -2000, -205 and -800 at camera depth 0. *)
Definition three : list (string * Position.t) :=
  [("far", at_depth (-2000)); ("near", at_depth (-205)); ("mid", at_depth (-800))]%string.

(** A hand of 21 landmarks of which the four the code reads are given. *)
Definition hand (thumbTip indexTip wrist middleMCP : Landmark.t) : list Landmark.t :=
  let o := Landmark.mk 0 0 in
  [wrist; o; o; o; thumbTip; o; o; o; indexTip; middleMCP;
   o; o; o; o; o; o; o; o; o; o; o].

Definition openHand : list Landmark.t :=
  hand (Landmark.mk 0.2 0.5) (Landmark.mk 0.5 0.1) (Landmark.mk 0.5 0.9) (Landmark.mk 0.5 0.5).

Definition pinchedHand : list Landmark.t :=
  hand (Landmark.mk 0.47 0.46) (Landmark.mk 0.5 0.5) (Landmark.mk 0.5 0.9) (Landmark.mk 0.5 0.5).

(** The scene after a pinch at rest opened the first product. *)
Definition inspecting : App.State string :=
  App.mkState 0 0 false 0 0 false true (Some "coat"%string) true.

(** The scene after a wheel turn of 800 at rest: the camera is at 1200, the
    spring still shows 0. *)
Definition scrolled : App.State string :=
  App.handleWheel App.initial 800.

Definition seen (h : list Landmark.t) : HandController.Capture :=
  HandController.Results (Some [h]).

Definition noHand : HandController.Capture :=
  HandController.Results (Some []).

(** The scene after one capture of the pinched hand, at rest: the pinch is
    latched and has opened the first product. *)
Definition latched : Scene.State string :=
  Scene.mkState true
    (App.mkState 0 0 false 0 0 true true (Some "coat"%string) true).

End Demo.

(** ** Vocabulary of the statements *)

(** [f] does not decrease, or does not increase, between [a] and [b]. *)
Definition nondecreasing_on (a b : Q) (f : Q -> Q) : Prop :=
  forall u v, a <= u -> u <= v -> v <= b -> f u <= f v.

Definition nonincreasing_on (a b : Q) (f : Q -> Q) : Prop :=
  forall u v, a <= u -> u <= v -> v <= b -> f v <= f u.

(** The velocity of section 4.4, in the words of the specification:
    [computeVelocity(verticalPosition, detected)]. *)
Definition spec_computeVelocity (verticalPosition : Q) (detected : bool) : Q :=
  if negb detected then 0
  else if Qle_bool 0.35 verticalPosition && Qle_bool verticalPosition 0.65 then 0
  else JS.Math_sign (0.5 - verticalPosition)
       * (JS.Math_abs (0.5 - verticalPosition) - 0.15) * 25.

(** One round of the pinch-open scan, on an item and its placement. *)
Definition scan_step {Product : Type} (currentCameraZ : Q) (acc : App.Scan Product)
  (item : Product * Position.t) : App.Scan Product :=
  let distance := App.distance currentCameraZ (Position.z (snd item)) in
  if JS.lt_ext distance (App.minDistance acc)
  then App.mkScan (Some (fst item)) (JS.Fin distance)
  else acc.

(** [acc] holds the first closest of the items [seen]. *)
Definition first_closest {Product : Type} (currentCameraZ : Q)
  (seen : list (Product * Position.t)) (acc : App.Scan Product) : Prop :=
  match App.closestImg acc, App.minDistance acc with
  | None, JS.Infinity => seen = []
  | Some img, JS.Fin d =>
      exists k p,
        nth_error seen k = Some (img, p) /\
        d = App.distance currentCameraZ (Position.z p) /\
        (forall j q, nth_error seen j = Some q ->
           d <= App.distance currentCameraZ (Position.z (snd q))) /\
        (forall j q, (j < k)%nat -> nth_error seen j = Some q ->
           d < App.distance currentCameraZ (Position.z (snd q)))
  | _, _ => False
  end.

(** While the modal is open the gesture velocity is zero. *)
Definition velocity_frozen {Product : Type} (s : App.State Product) : Prop :=
  App.isModalOpen s = true -> App.handVelocity s = 0.

(** The transitions of a sequence of booleans that starts after [w]. *)
Fixpoint edges (w : bool) (bs : list bool) : list bool :=
  match bs with
  | [] => []
  | b :: rest => (if Bool.eqb b w then [] else [b]) ++ edges b rest
  end.

(** The pinch state of [App] agrees with [wasPinchingRef]. *)
Definition coupled {Product : Type} (st : Scene.State Product) : Prop :=
  App.isPinching (Scene.app st) = Scene.wasPinchingRef st.

(** Successive booleans differ, the first from [w]. *)
Fixpoint alternating (w : bool) (bs : list bool) : Prop :=
  match bs with
  | [] => True
  | b :: rest => b = negb w /\ alternating b rest
  end.

(** A pointer dragged through the positions [ys], and a wheel turned by the
    amounts [ds], as events of [App]. *)
Definition moves (ys : list Q) : list App.Event :=
  map (fun clientY => App.FromUI (App.PointerMove clientY)) ys.

Definition wheels (ds : list Q) : list App.Event :=
  map (fun deltaY => App.FromUI (App.Wheel deltaY)) ds.

Definition Qsum (l : list Q) : Q := fold_right Qplus 0 l.

(** A landmark moved by [(dx, dy)] in the frame. *)
Definition shift (dx dy : Q) (l : Landmark.t) : Landmark.t :=
  Landmark.mk (Landmark.x l + dx) (Landmark.y l + dy).

(** * Properties *)

(** ** Comparisons of numbers *)

Lemma ltb_true (a b : Q) : JS.ltb a b = true <-> a < b.
Proof.
  unfold JS.ltb. rewrite Qlt_alt.
  destruct (a ?= b); split; congruence.
Qed.

Lemma ltb_false (a b : Q) : JS.ltb a b = false <-> b <= a.
Proof.
  split; intro H.
  - apply Qnot_lt_le. intro L. apply ltb_true in L. congruence.
  - destruct (JS.ltb a b) eqn:E; [|reflexivity].
    apply ltb_true in E. exfalso. apply (Qlt_not_le _ _ E H).
Qed.

Lemma ltb_cases (a b : Q) :
  (JS.ltb a b = true /\ a < b) \/ (JS.ltb a b = false /\ b <= a).
Proof.
  destruct (JS.ltb a b) eqn:E; [left|right]; split; trivial.
  - now apply ltb_true.
  - now apply ltb_false.
Qed.

Ltac case_ltb a b :=
  let E := fresh "E" in
  let H := fresh "H" in
  destruct (ltb_cases a b) as [[E H]|[E H]]; rewrite ?E in *.

(** ** PositionGenerator *)

Lemma generateRandomPosition_z (i : Z) :
  Position.z (Utils.generateRandomPosition i) = inject_Z i * - Utils.stepDistance.
Proof. reflexivity. Qed.

(** C7. For indices [i <> j] the depths of [generateRandomPosition i] and
    [generateRandomPosition j] differ by exactly [stepDistance * (i - j)],
    the depth of index [i] being [i * -stepDistance]; the depths are
    distinct and strictly ordered, the larger index lying deeper. *)
Theorem generateRandomPosition_z_step (i j : Z) :
  i <> j ->
  Position.z (Utils.generateRandomPosition i) == inject_Z i * - Utils.stepDistance /\
  Position.z (Utils.generateRandomPosition j) - Position.z (Utils.generateRandomPosition i)
    == Utils.stepDistance * (inject_Z i - inject_Z j) /\
  ~ Position.z (Utils.generateRandomPosition i) == Position.z (Utils.generateRandomPosition j) /\
  ((i < j)%Z ->
   Position.z (Utils.generateRandomPosition j) < Position.z (Utils.generateRandomPosition i)).
Proof.
  intro Hij. rewrite !generateRandomPosition_z. unfold Utils.stepDistance.
  assert (Hlt : forall a b : Z, (a < b)%Z -> inject_Z b * - (400) < inject_Z a * - (400)).
  { intros a b L. rewrite Zlt_Qlt in L. lra. }
  split; [reflexivity|]. split; [ring|]. split.
  - intro E. destruct (Z.lt_total i j) as [L|[L|L]].
    + apply Hlt in L. lra.
    + contradiction.
    + apply Hlt in L. lra.
  - apply Hlt.
Qed.

Lemma generateRandomPosition_z_step_witness :
  (2 <> 5)%Z /\
  Position.z (Utils.generateRandomPosition 5) - Position.z (Utils.generateRandomPosition 2)
    == Utils.stepDistance * (inject_Z 2 - inject_Z 5).
Proof.
  split; [lia|].
  refine (proj1 (proj2 (generateRandomPosition_z_step 2 5 _))). lia.
Defined.

(** ** DepthMapper *)

Lemma Qdiv_le_mono (c u v : Q) : 0 < c -> u <= v -> u / c <= v / c.
Proof.
  intros Hc Huv. unfold Qdiv. apply Qmult_le_compat_r; [assumption|].
  apply Qlt_le_weak, Qinv_lt_0_compat, Hc.
Qed.

Ltac eval_eqb :=
  repeat match goal with
  | |- context [Qeq_bool ?a ?b] =>
      let r := eval vm_compute in (Qeq_bool a b) in
      change (Qeq_bool a b) with r
  end;
  cbv iota.

Lemma opacity_rising (v : Q) :
  -2000 <= v -> v <= -500 -> FloatingImage.opacity v == (v + 2000) / 1500.
Proof.
  intros L U. unfold FloatingImage.opacity, FloatingImage.useTransform,
    FloatingImage.clamp, JS.gtb. simpl hd; simpl last.
  case_ltb 400 v; [lra|]. case_ltb v (-2000); [lra|].
  unfold FloatingImage.interpolator.
  case_ltb v (-500).
  - unfold FloatingImage.mixNumber, FloatingImage.progress. eval_eqb. field.
  - assert (Hv : v == -500) by lra.
    case_ltb v 0; [|lra].
    unfold FloatingImage.mixNumber, FloatingImage.progress. eval_eqb.
    rewrite Hv. reflexivity.
Qed.

Lemma opacity_plateau (v : Q) :
  -500 <= v -> v <= 0 -> FloatingImage.opacity v == 1.
Proof.
  intros L U. unfold FloatingImage.opacity, FloatingImage.useTransform,
    FloatingImage.clamp, JS.gtb. simpl hd; simpl last.
  case_ltb 400 v; [lra|]. case_ltb v (-2000); [lra|].
  unfold FloatingImage.interpolator.
  case_ltb v (-500); [lra|].
  unfold FloatingImage.mixNumber, FloatingImage.progress. eval_eqb.
  case_ltb v 0.
  - field.
  - assert (Hv : v == 0) by lra. rewrite Hv. reflexivity.
Qed.

Lemma opacity_falling (v : Q) :
  0 <= v -> v <= 400 -> FloatingImage.opacity v == 1 - v / 400.
Proof.
  intros L U. unfold FloatingImage.opacity, FloatingImage.useTransform,
    FloatingImage.clamp, JS.gtb. simpl hd; simpl last.
  case_ltb 400 v; [lra|]. case_ltb v (-2000); [lra|].
  unfold FloatingImage.interpolator.
  case_ltb v (-500); [lra|]. case_ltb v 0; [lra|].
  unfold FloatingImage.mixNumber, FloatingImage.progress. eval_eqb.
  field.
Qed.

Lemma scale_rising (v : Q) :
  -2000 <= v -> v <= 0 -> FloatingImage.scale v == 0.5 + 0.7 * ((v + 2000) / 2000).
Proof.
  intros L U. unfold FloatingImage.scale, FloatingImage.useTransform,
    FloatingImage.clamp, JS.gtb. simpl hd; simpl last.
  case_ltb 0 v; [lra|]. case_ltb v (-2000); [lra|].
  unfold FloatingImage.interpolator.
  unfold FloatingImage.mixNumber, FloatingImage.progress. eval_eqb.
  field.
Qed.

(** C8. Opacity and scale are monotonic in the effective depth within each
    segment of their breakpoints: opacity does not decrease from -2000 to
    -500 nor from -500 to 0, and does not increase from 0 to 400; scale
    does not decrease from -2000 to 0.  At the reference points, opacity
    is 0 at -2000 and 1 at 0, and scale is 1.2 at 0. *)
Theorem depth_projection_monotonic :
  nondecreasing_on (-2000) (-500) FloatingImage.opacity /\
  nondecreasing_on (-500) 0 FloatingImage.opacity /\
  nonincreasing_on 0 400 FloatingImage.opacity /\
  nondecreasing_on (-2000) 0 FloatingImage.scale /\
  FloatingImage.opacity (-2000) == 0 /\
  FloatingImage.opacity 0 == 1 /\
  FloatingImage.scale 0 == 1.2.
Proof.
  repeat match goal with |- _ /\ _ => split end;
    try (intros u v Hu Huv Hv).
  - rewrite (opacity_rising u), (opacity_rising v) by lra.
    apply Qdiv_le_mono; lra.
  - rewrite (opacity_plateau u), (opacity_plateau v) by lra. lra.
  - rewrite (opacity_falling u), (opacity_falling v) by lra.
    assert (u / 400 <= v / 400) by (apply Qdiv_le_mono; lra). lra.
  - rewrite (scale_rising u), (scale_rising v) by lra.
    assert ((u + 2000) / 2000 <= (v + 2000) / 2000) by (apply Qdiv_le_mono; lra).
    lra.
  - reflexivity.
  - reflexivity.
  - reflexivity.
Qed.

(** ** VelocityController *)

Lemma inspecting_reachable :
  App.run Demo.gallery App.initial [App.FromHand (HandController.onPinch true)]
  = Some Demo.inspecting.
Proof. reflexivity. Qed.

(** C5, as the specification states it, fails while the modal is open: a
    detected hand at 0.9 leaves the velocity at 0, where the formula
    gives -6.25. *)
Lemma handleHandMove_velocity_counterexample :
  App.handVelocity (App.handleHandMove Demo.inspecting 0.9 true) == 0 /\
  spec_computeVelocity 0.9 true == -6.25 /\
  ~ App.handVelocity (App.handleHandMove Demo.inspecting 0.9 true)
    == spec_computeVelocity 0.9 true.
Proof.
  split; [reflexivity|]. split; [reflexivity|]. vm_compute. discriminate.
Qed.

(** C5, amended.  [handleHandMove] sets the velocity to 0 when no hand is
    detected, whatever the vertical position, and to 0 while the modal is
    open; to exactly 0 for every vertical position with
    [|0.5 - y| < 0.15], the open band between 0.35 and 0.65, when a hand is
    detected; and otherwise, when the modal is closed, to
    [sign(0.5 - y) * (|0.5 - y| - 0.15) * 25]. *)
Theorem handleHandMove_velocity {Product : Type} (s : App.State Product)
  (y : Q) (detected : bool) :
  (detected = false -> App.handVelocity (App.handleHandMove s y detected) == 0) /\
  (App.isModalOpen s = true -> App.handVelocity (App.handleHandMove s y detected) == 0) /\
  (detected = true -> JS.Math_abs (0.5 - y) < 0.15 ->
   App.handVelocity (App.handleHandMove s y detected) == 0) /\
  (detected = true -> App.isModalOpen s = false -> 0.15 <= JS.Math_abs (0.5 - y) ->
   App.handVelocity (App.handleHandMove s y detected)
   == JS.Math_sign (0.5 - y) * (JS.Math_abs (0.5 - y) - 0.15) * 25) /\
  (JS.Math_abs (0.5 - y) < 0.15 <-> 0.35 < y /\ y < 0.65).
Proof.
  unfold App.handleHandMove. cbn [App.isModalOpen App.setIsHandDetected].
  split; [|split; [|split; [|split]]].
  - intros ->. reflexivity.
  - intros ->. rewrite orb_true_r. reflexivity.
  - intros -> Hband. cbn [negb orb].
    destruct (App.isModalOpen s); [reflexivity|].
    case_ltb (JS.Math_abs (0.5 - y)) 0.15; [reflexivity|].
    exfalso. apply (Qlt_not_le _ _ Hband H).
  - intros -> -> Hout. cbn [negb orb].
    case_ltb (JS.Math_abs (0.5 - y)) 0.15; [|reflexivity].
    exfalso. apply (Qlt_not_le _ _ H Hout).
  - unfold JS.Math_abs. rewrite Qabs_Qlt_condition. split; intros [? ?]; split; lra.
Qed.

Lemma handleHandMove_velocity_witness :
  App.handVelocity (App.handleHandMove (@App.initial string) 0.9 true) == -6.25 /\
  App.handVelocity (App.handleHandMove (@App.initial string) 0.5 true) == 0 /\
  App.handVelocity (App.handleHandMove Demo.inspecting 0.9 true) == 0.
Proof.
  pose proof (handleHandMove_velocity (@App.initial string) 0.9 true) as [_ [_ [_ [H1 _]]]].
  pose proof (handleHandMove_velocity (@App.initial string) 0.5 true) as [_ [_ [H2 _]]].
  pose proof (handleHandMove_velocity Demo.inspecting 0.9 true) as [_ [H3 _]].
  split; [|split].
  - rewrite H1; [reflexivity | reflexivity | reflexivity | discriminate].
  - apply H2; reflexivity.
  - apply H3. reflexivity.
Defined.

(** ** SelectionResolver *)

Section Resolver.

Context {Product : Type}.
Variable cam : Q.

Lemma forEach_items (items : list (Product * Position.t)) :
  forall (pre : list Position.t) (acc : App.Scan Product),
    App.forEach (pre ++ map snd items) cam (map fst items) (length pre) acc
    = Some (fold_left (scan_step cam) items acc).
Proof.
  induction items as [|[img p] items IH]; intros pre acc; [reflexivity|].
  cbn [map fst snd App.forEach fold_left].
  rewrite nth_error_app2 by lia. rewrite Nat.sub_diag. cbn [nth_error bind].
  specialize (IH (pre ++ [p])).
  rewrite <- app_assoc, length_app, Nat.add_1_r in IH. cbn [app length] in IH.
  rewrite IH. reflexivity.
Qed.

Lemma first_closest_step (seen : list (Product * Position.t))
  (acc : App.Scan Product) (item : Product * Position.t) :
  first_closest cam seen acc ->
  first_closest cam (seen ++ [item]) (scan_step cam acc item).
Proof.
  destruct item as [img p]. destruct acc as [[best|] [|d]];
    unfold first_closest, scan_step; cbn [App.closestImg App.minDistance fst snd JS.lt_ext];
    try contradiction.
  - intros (k & pk & Hk & -> & Hall & Hbefore).
    case_ltb (App.distance cam (Position.z p)) (App.distance cam (Position.z pk));
      cbn [App.closestImg App.minDistance].
    + exists (length seen), p. split; [|split; [reflexivity|split]].
      * rewrite nth_error_app2 by lia. now rewrite Nat.sub_diag.
      * intros j q Hq. destruct (Nat.lt_ge_cases j (length seen)) as [Hj|Hj].
        -- rewrite nth_error_app1 in Hq by assumption.
           apply Qlt_le_weak. eapply Qlt_le_trans; [exact H|]. eapply Hall, Hq.
        -- rewrite nth_error_app2 in Hq by assumption.
           destruct (j - length seen)%nat as [|[|n]]; cbn in Hq; try discriminate.
           injection Hq as <-. apply Qle_refl.
      * intros j q Hj Hq. rewrite nth_error_app1 in Hq by assumption.
        eapply Qlt_le_trans; [exact H|]. eapply Hall, Hq.
    + exists k, pk. split; [|split; [reflexivity|split]].
      * rewrite nth_error_app1; [assumption|]. apply nth_error_Some. congruence.
      * intros j q Hq. destruct (Nat.lt_ge_cases j (length seen)) as [Hj|Hj].
        -- rewrite nth_error_app1 in Hq by assumption. eapply Hall, Hq.
        -- rewrite nth_error_app2 in Hq by assumption.
           destruct (j - length seen)%nat as [|[|n]]; cbn in Hq; try discriminate.
           injection Hq as <-. exact H.
      * intros j q Hj Hq.
        assert (Hks : (k < length seen)%nat) by (apply nth_error_Some; congruence).
        rewrite nth_error_app1 in Hq by lia. eapply Hbefore; eassumption.
  - intros ->. cbn [App.closestImg App.minDistance app].
    exists 0%nat, p. split; [reflexivity|]. split; [reflexivity|]. split.
    + intros [|[|j]] q Hq; cbn in Hq; try discriminate.
      injection Hq as <-. apply Qle_refl.
    + intros j q Hj. lia.
Qed.

Lemma first_closest_fold (rest : list (Product * Position.t)) :
  forall (seen : list (Product * Position.t)) (acc : App.Scan Product),
    first_closest cam seen acc ->
    first_closest cam (seen ++ rest) (fold_left (scan_step cam) rest acc).
Proof.
  induction rest as [|item rest IH]; intros seen acc Hacc; cbn [fold_left].
  - now rewrite app_nil_r.
  - replace (seen ++ item :: rest) with ((seen ++ [item]) ++ rest)
      by (now rewrite <- app_assoc).
    apply IH, first_closest_step, Hacc.
Qed.

Lemma forEach_first_closest (items : list (Product * Position.t)) :
  exists r,
    App.forEach (map snd items) cam (map fst items) 0 (App.mkScan None JS.Infinity)
    = Some r /\ first_closest cam items r.
Proof.
  eexists. split.
  - exact (forEach_items items [] _).
  - apply (first_closest_fold items []). reflexivity.
Qed.

End Resolver.

(** C2, as the specification states it, fails at the cutoff: with the
    camera at -1200 the first product is exactly 1000 from the sweet spot,
    so the minimum distance does not exceed 1000, and nothing is picked. *)
Lemma resolve_cutoff_counterexample :
  App.resolve (App.positions Demo.gallery) Demo.gallery (-1200) = Some None /\
  (exists p, In p (App.positions Demo.gallery) /\
             App.distance (-1200) (Position.z p) == 1000) /\
  ~ (forall p, In p (App.positions Demo.gallery) ->
               1000 < App.distance (-1200) (Position.z p)).
Proof.
  split; [reflexivity|]. split.
  - exists (Utils.generateRandomPosition 0). split; [left; reflexivity | reflexivity].
  - intro H. specialize (H (Utils.generateRandomPosition 0) (or_introl eq_refl)).
    vm_compute in H. discriminate.
Qed.

(** C2, amended.  For every item list and camera depth the scan takes
    [relativeDepth = item.z + cameraDepth] for each item and picks the item
    minimizing [|relativeDepth - (-200)|], the first in iteration order on
    ties; it returns none exactly when no item is closer than 1000 to the
    sweet spot, that is when the minimum distance is at least 1000 or there
    is no item.  In particular for items of relative depth -2000, -205 and
    -800 it picks the one at -205. *)
Theorem resolve_first_closest :
  (forall (Product : Type) (items : list (Product * Position.t)) (cameraDepth : Q),
      (forall z, App.distance cameraDepth z == Qabs ((z + cameraDepth) - (-200))) /\
      exists r,
        App.resolve (map snd items) (map fst items) cameraDepth = Some r /\
        (r = None <->
         forall q, In q items ->
           1000 <= App.distance cameraDepth (Position.z (snd q))) /\
        (forall img, r = Some img ->
           exists k p,
             nth_error items k = Some (img, p) /\
             App.distance cameraDepth (Position.z p) < 1000 /\
             (forall j q, nth_error items j = Some q ->
                App.distance cameraDepth (Position.z p)
                <= App.distance cameraDepth (Position.z (snd q))) /\
             (forall j q, (j < k)%nat -> nth_error items j = Some q ->
                App.distance cameraDepth (Position.z p)
                < App.distance cameraDepth (Position.z (snd q))))) /\
  Forall2 Qeq (map (fun item => Position.z (snd item) + 0) Demo.three)
    [-2000; -205; -800] /\
  App.resolve (map snd Demo.three) (map fst Demo.three) 0 = Some (Some "near"%string).
Proof.
  split; [|split; [repeat constructor|reflexivity]].
  intros Product items cam. split; [reflexivity|].
  destruct (forEach_first_closest cam items) as (r & Hr & Hbest).
  unfold App.resolve. rewrite Hr. cbn [bind].
  destruct r as [[img|] [|d]]; unfold first_closest in Hbest;
    cbn [App.closestImg App.minDistance JS.ext_lt] in *; try contradiction.
  - destruct Hbest as (k & p & Hk & -> & Hall & Hbefore).
    case_ltb (App.distance cam (Position.z p)) 1000.
    + eexists. split; [reflexivity|]. split.
      * split; [discriminate|]. intro Hfar. exfalso.
        apply nth_error_In in Hk. apply Hfar in Hk. cbn [snd] in Hk.
        apply (Qlt_not_le _ _ H Hk).
      * intros img' [= <-]. exists k, p. auto.
    + eexists. split; [reflexivity|]. split; [|discriminate].
      split; [|reflexivity]. intros _ q Hq.
      apply In_nth_error in Hq as [j Hj].
      eapply Qle_trans; [exact H|]. eapply Hall, Hj.
  - subst items. eexists. split; [reflexivity|]. split; [|discriminate].
    split; [|reflexivity]. intros _ q [].
Qed.

(** ** The pinch handler of [App] *)

Section Handlers.

Context {Product : Type}.
Variable fashionImages : list Product.

Lemma positions_length :
  length (App.positions fashionImages) = length fashionImages.
Proof. unfold App.positions. now rewrite length_map, length_seq. Qed.

Lemma forEach_total (positions : list Position.t) (cam : Q) (imgs : list Product) :
  forall (i : nat) (acc : App.Scan Product),
    (i + length imgs <= length positions)%nat ->
    exists r, App.forEach positions cam imgs i acc = Some r.
Proof.
  induction imgs as [|img imgs IH]; intros i acc Hlen; cbn [App.forEach].
  - now exists acc.
  - cbn [length] in Hlen.
    destruct (nth_error positions i) as [p|] eqn:Hp.
    + cbn [bind]. apply IH. lia.
    + apply nth_error_None in Hp. lia.
Qed.

Lemma resolve_total (cam : Q) :
  exists sel, App.resolve (App.positions fashionImages) fashionImages cam = Some sel.
Proof.
  unfold App.resolve.
  destruct (forEach_total (App.positions fashionImages) cam fashionImages 0
              (App.mkScan None JS.Infinity)) as [r Hr].
  { rewrite positions_length. lia. }
  rewrite Hr. cbn [bind].
  destruct (App.closestImg r); [destruct (JS.ext_lt _ _)|]; eauto.
Qed.

Lemma handlePinch_total (s : App.State Product) (pinching : bool) :
  exists s', App.handlePinch fashionImages s pinching = Some s'.
Proof.
  unfold App.handlePinch. destruct pinching; [|eauto].
  cbn [App.isModalOpen App.setIsPinching App.zPosition].
  destruct (App.isModalOpen s); [eauto|].
  destruct (resolve_total (App.zPosition s)) as [sel ->]. cbn [bind].
  destruct sel; eauto.
Qed.

Lemma handlePinch_isPinching (s s' : App.State Product) (pinching : bool) :
  App.handlePinch fashionImages s pinching = Some s' ->
  App.isPinching s' = pinching.
Proof.
  unfold App.handlePinch. destruct pinching.
  - cbn [App.isModalOpen App.setIsPinching App.zPosition].
    destruct (App.isModalOpen s).
    + intros [= <-]. reflexivity.
    + destruct (App.resolve _ _ _) as [[img|]|]; cbn [bind]; try discriminate;
        intros [= <-]; reflexivity.
  - intros [= <-]. reflexivity.
Qed.

Lemma step_total (s : App.State Product) (e : App.Event) :
  exists s', App.step fashionImages s e = Some s'.
Proof.
  destruct e as [[y d|b]|e]; cbn [App.step App.call]; eauto.
  apply handlePinch_total.
Qed.

End Handlers.

(** ** InteractionRouter *)

Ltac state_simpl :=
  cbn [App.zPosition App.smoothZ App.isDragging App.lastY App.handVelocity
       App.isHandDetected App.isPinching App.selectedProduct App.isModalOpen
       App.zPosition_set App.smoothZ_set App.setIsDragging App.lastY_set
       App.setHandVelocity App.setIsHandDetected App.setIsPinching
       App.setSelectedProduct App.setIsModalOpen] in *.

Section Router.

Context {Product : Type}.
Variable fashionImages : list Product.

Lemma velocity_frozen_step (s s' : App.State Product) (e : App.Event) :
  velocity_frozen s -> App.step fashionImages s e = Some s' -> velocity_frozen s'.
Proof.
  unfold velocity_frozen. intro Inv.
  destruct e as [[y d|b]|e]; cbn [App.step App.call App.handle].
  - intros [= <-]. unfold App.handleHandMove. state_simpl.
    destruct (negb d || App.isModalOpen s) eqn:Hg; [reflexivity|].
    apply orb_false_elim in Hg as [_ Hm].
    destruct (JS.ltb _ _); state_simpl; congruence.
  - unfold App.handlePinch. state_simpl.
    destruct b; [|intros [= <-]; exact Inv].
    destruct (App.isModalOpen s) eqn:Hm.
    + intros [= <-]. discriminate.
    + destruct (App.resolve _ _ _) as [[img|]|]; cbn [bind]; try discriminate;
        intros [= <-]; state_simpl; [reflexivity | congruence].
  - intros [= <-].
    destruct e; cbn [App.handle];
      unfold App.onAnimationFrame, App.handlePointerDown, App.handlePointerMove,
        App.handlePointerUp, App.handleWheel, App.onClose;
      destruct (App.isModalOpen s) eqn:Hm;
      rewrite ?andb_false_r, ?orb_true_r;
      try destruct (_ && _); try destruct (_ || _);
      state_simpl; try exact Inv; try congruence; auto.
Qed.

Lemma velocity_frozen_run (events : list App.Event) :
  forall s s' : App.State Product,
    velocity_frozen s -> App.run fashionImages s events = Some s' -> velocity_frozen s'.
Proof.
  induction events as [|e events IH]; intros s s' Inv; cbn [App.run].
  - now intros [= <-].
  - destruct (App.step fashionImages s e) as [s1|] eqn:Hs; cbn [bind]; [|discriminate].
    apply IH. eapply velocity_frozen_step; eassumption.
Qed.

Lemma modal_open_z_fixed (s s' : App.State Product) (e : App.Event) :
  App.isModalOpen s = true ->
  App.step fashionImages s e = Some s' ->
  App.zPosition s' = App.zPosition s.
Proof.
  intro Hm. destruct e as [[y d|b]|e]; cbn [App.step App.call App.handle].
  - intros [= <-]. unfold App.handleHandMove.
    cbn [App.isModalOpen App.setIsHandDetected]. rewrite Hm, orb_true_r. reflexivity.
  - unfold App.handlePinch. cbn [App.isModalOpen App.setIsPinching]. rewrite Hm.
    destruct b; intros [= <-]; reflexivity.
  - intros [= <-]. destruct e; cbn;
      unfold App.onAnimationFrame, App.handlePointerDown, App.handlePointerMove,
        App.handleWheel;
      rewrite ?Hm, ?andb_false_r, ?orb_true_r; reflexivity.
Qed.

End Router.

(** C3. In every state the component reaches in which the modal is open,
    pointer down, pointer drag, wheel and the per-frame integration of the
    gesture velocity leave the state as it is, no event whatever changes
    the camera depth, and the gesture velocity is zero and every hand
    report keeps it zero. *)
Theorem modal_open_freezes_camera {Product : Type} (fashionImages : list Product)
  (events : list App.Event) (s : App.State Product) :
  App.run fashionImages App.initial events = Some s ->
  App.isModalOpen s = true ->
  (forall clientY, App.handlePointerDown s clientY = s) /\
  (forall clientY, App.handlePointerMove s clientY = s) /\
  (forall deltaY, App.handleWheel s deltaY = s) /\
  App.onAnimationFrame s = s /\
  (forall e, exists s',
      App.step fashionImages s e = Some s' /\ App.zPosition s' = App.zPosition s) /\
  App.handVelocity s = 0 /\
  (forall y detected, App.handVelocity (App.handleHandMove s y detected) = 0).
Proof.
  intros Hrun Hm.
  split; [|split; [|split; [|split; [|split; [|split]]]]].
  - intro clientY. unfold App.handlePointerDown. now rewrite Hm.
  - intro clientY. unfold App.handlePointerMove. now rewrite Hm, orb_true_r.
  - intro deltaY. unfold App.handleWheel. now rewrite Hm.
  - unfold App.onAnimationFrame. now rewrite Hm, andb_false_r.
  - intro e. destruct (step_total fashionImages s e) as [s' Hs].
    exists s'. split; [exact Hs|]. eapply modal_open_z_fixed; eassumption.
  - refine (velocity_frozen_run fashionImages events _ _ _ Hrun Hm). discriminate.
  - intros y detected. unfold App.handleHandMove.
    cbn [App.isModalOpen App.setIsHandDetected]. now rewrite Hm, orb_true_r.
Qed.

Lemma modal_open_freezes_camera_witness :
  App.run Demo.gallery App.initial [App.FromHand (HandController.onPinch true)]
  = Some Demo.inspecting /\
  App.isModalOpen Demo.inspecting = true /\
  App.handleWheel Demo.inspecting 120 = Demo.inspecting /\
  App.handVelocity Demo.inspecting = 0.
Proof.
  pose proof (modal_open_freezes_camera Demo.gallery
                [App.FromHand (HandController.onPinch true)] Demo.inspecting
                eq_refl eq_refl) as (_ & _ & Hwheel & _ & _ & Hv & _).
  split; [reflexivity|]. split; [reflexivity|]. split; [apply Hwheel | exact Hv].
Defined.

(** ** The camera depth read on pinch-open *)

(** C1, as the specification states it, fails after a wheel turn: the
    camera is at 1200 while the spring still shows 0; the pinch opens the
    fourth product, the closest seen from 1200, where resolving against the
    depth on show would open the first. *)
Lemma handlePinch_depth_counterexample :
  App.run Demo.gallery App.initial [App.FromUI (App.Wheel 800)] = Some Demo.scrolled /\
  App.zPosition Demo.scrolled == 1200 /\
  App.smoothZ Demo.scrolled == 0 /\
  option_map App.selectedProduct (App.handlePinch Demo.gallery Demo.scrolled true)
  = Some (Some "scarf"%string) /\
  App.resolve (App.positions Demo.gallery) Demo.gallery (App.smoothZ Demo.scrolled)
  = Some (Some "coat"%string) /\
  option_map App.selectedProduct (App.handlePinch Demo.gallery Demo.scrolled true)
  <> App.resolve (App.positions Demo.gallery) Demo.gallery (App.smoothZ Demo.scrolled).
Proof.
  repeat (split; [reflexivity|]). vm_compute. discriminate.
Qed.

(** C1, amended.  When a pinch-open occurs with the modal closed, the scan
    resolves every item's relative depth against the camera depth
    [zPosition], the target the spring follows: the product opened is the
    one the resolver returns at [zPosition], and the spring-eased value
    [smoothZ] has no influence on the outcome. *)
Theorem handlePinch_reads_zPosition {Product : Type} (fashionImages : list Product)
  (s : App.State Product) :
  App.isModalOpen s = false ->
  (exists sel,
      App.resolve (App.positions fashionImages) fashionImages (App.zPosition s) = Some sel /\
      App.handlePinch fashionImages s true
      = Some match sel with
             | Some img =>
                 App.setHandVelocity 0
                   (App.setIsModalOpen true
                      (App.setSelectedProduct (Some img) (App.setIsPinching true s)))
             | None => App.setIsPinching true s
             end) /\
  (forall v,
      App.handlePinch fashionImages (App.smoothZ_set v s) true
      = option_map (App.smoothZ_set v) (App.handlePinch fashionImages s true)).
Proof.
  intro Hm. split.
  - destruct (resolve_total fashionImages (App.zPosition s)) as [sel Hsel].
    exists sel. split; [exact Hsel|].
    unfold App.handlePinch. state_simpl. rewrite Hm, Hsel. cbn [bind].
    destruct sel; reflexivity.
  - intro v. unfold App.handlePinch. state_simpl. rewrite Hm.
    destruct (App.resolve _ _ _) as [[img|]|]; reflexivity.
Qed.

Lemma handlePinch_reads_zPosition_witness :
  App.isModalOpen Demo.scrolled = false /\
  App.handlePinch Demo.gallery (App.smoothZ_set 600 Demo.scrolled) true
  = option_map (App.smoothZ_set 600) (App.handlePinch Demo.gallery Demo.scrolled true).
Proof.
  split; [reflexivity|].
  apply (handlePinch_reads_zPosition Demo.gallery Demo.scrolled). reflexivity.
Defined.

(** ** GestureInterpreter *)

Lemma last_cons_default {A : Type} (l : list A) :
  forall a d : A, last (a :: l) d = last l a.
Proof.
  induction l as [|b l IH]; intros a d; [reflexivity|].
  change (last (a :: b :: l) d) with (last (b :: l) d).
  now rewrite !IH.
Qed.

Section Gesture.

Variable Math_sqrt : Q -> Q.

Lemma handPinching_total (landmarks : list Landmark.t) :
  (10 <= length landmarks)%nat ->
  exists b, HandController.handPinching Math_sqrt landmarks = Some b.
Proof.
  intro Hlen. unfold HandController.handPinching.
  destruct (nth_error landmarks 4) as [thumbTip|] eqn:H4;
    [|apply nth_error_None in H4; lia].
  destruct (nth_error landmarks 8) as [indexTip|] eqn:H8;
    [|apply nth_error_None in H8; lia].
  destruct (nth_error landmarks 0) as [wrist|] eqn:H0;
    [|apply nth_error_None in H0; lia].
  destruct (nth_error landmarks 9) as [middleMCP|] eqn:H9;
    [|apply nth_error_None in H9; lia].
  cbn [bind]. eauto.
Qed.

Lemma handPinching_nth9 (landmarks : list Landmark.t) (b : bool) :
  HandController.handPinching Math_sqrt landmarks = Some b ->
  exists l9, nth_error landmarks 9 = Some l9.
Proof.
  unfold HandController.handPinching.
  destruct (nth_error landmarks 4); cbn [bind]; [|discriminate].
  destruct (nth_error landmarks 8); cbn [bind]; [|discriminate].
  destruct (nth_error landmarks 0); cbn [bind]; [|discriminate].
  destruct (nth_error landmarks 9); cbn [bind]; [eauto|discriminate].
Qed.

(** One capture whose pinch boolean is [b]: the new [wasPinchingRef] is
    [b], and [onPinch b] is called exactly when [b] differs from the old
    one. *)
Lemma predictWebcam_edge (wasPinching b : bool) (frame : HandController.Capture) :
  HandController.framePinching Math_sqrt frame = Some b ->
  exists calls,
    HandController.predictWebcam Math_sqrt wasPinching frame = Some (b, calls) /\
    HandController.pinchEvents calls = if Bool.eqb b wasPinching then [] else [b].
Proof.
  destruct frame as [|[[|landmarks hands]|]];
    cbn [HandController.framePinching HandController.predictWebcam]; try discriminate.
  - intros [= <-]. destruct wasPinching; eexists; split; reflexivity.
  - intro Hb. destruct (handPinching_nth9 _ _ Hb) as [l9 ->]. rewrite Hb. cbn [bind].
    destruct b, wasPinching; eexists; split; reflexivity.
  - intros [= <-]. destruct wasPinching; eexists; split; reflexivity.
Qed.

Lemma loop_edges (frames : list HandController.Capture) :
  forall (bs : list bool) (wasPinching : bool),
    map (HandController.framePinching Math_sqrt) frames = map Some bs ->
    exists calls,
      HandController.loop Math_sqrt wasPinching frames
      = Some (last bs wasPinching, calls) /\
      HandController.pinchEvents calls = edges wasPinching bs.
Proof.
  induction frames as [|f frames IH]; intros [|b bs] w Hmap; try discriminate.
  - exists []. split; reflexivity.
  - cbn [map] in Hmap. injection Hmap as Hf Hrest.
    destruct (predictWebcam_edge w b f Hf) as (c1 & H1 & E1).
    destruct (IH bs b Hrest) as (c2 & H2 & E2).
    exists (c1 ++ c2). cbn [HandController.loop]. rewrite H1. cbn [bind fst snd].
    rewrite H2. cbn [bind fst snd]. split.
    + now rewrite last_cons_default.
    + unfold HandController.pinchEvents in *. rewrite flat_map_app, E1, E2. reflexivity.
Qed.

End Gesture.

(** C6. Pinch events are emitted only on transitions of the per-frame pinch
    boolean: a capture whose boolean is [b] calls [onPinch b] when [b]
    differs from the boolean latched before it and calls no [onPinch] when
    it is the same, and a capture that does not get as far as detection
    calls nothing; over a sequence of captures the [onPinch] calls are the
    transitions of the sequence of booleans.  In particular the booleans
    false, true, true, true, false, starting from a non-pinching state,
    emit exactly two events: open, then close. *)
Theorem pinch_is_edge_triggered (Math_sqrt : Q -> Q) :
  (forall (wasPinching b : bool) (frame : HandController.Capture),
      HandController.framePinching Math_sqrt frame = Some b ->
      exists calls,
        HandController.predictWebcam Math_sqrt wasPinching frame = Some (b, calls) /\
        HandController.pinchEvents calls = if Bool.eqb b wasPinching then [] else [b]) /\
  (forall wasPinching : bool,
      HandController.predictWebcam Math_sqrt wasPinching HandController.NotReady
      = Some (wasPinching, [])) /\
  (forall (frames : list HandController.Capture) (bs : list bool) (wasPinching : bool),
      map (HandController.framePinching Math_sqrt) frames = map Some bs ->
      exists calls,
        HandController.loop Math_sqrt wasPinching frames
        = Some (last bs wasPinching, calls) /\
        HandController.pinchEvents calls = edges wasPinching bs) /\
  (forall frames : list HandController.Capture,
      map (HandController.framePinching Math_sqrt) frames
      = [Some false; Some true; Some true; Some true; Some false] ->
      exists calls,
        HandController.loop Math_sqrt false frames = Some (false, calls) /\
        HandController.pinchEvents calls = [true; false]).
Proof.
  split; [|split; [|split]].
  - apply predictWebcam_edge.
  - reflexivity.
  - apply loop_edges.
  - intros frames Hmap.
    exact (loop_edges Math_sqrt frames [false; true; true; true; false] false Hmap).
Qed.

Lemma pinch_is_edge_triggered_witness :
  exists calls,
    HandController.loop sqrt_fix false
      [Demo.seen Demo.openHand; Demo.seen Demo.pinchedHand; Demo.seen Demo.pinchedHand;
       Demo.seen Demo.pinchedHand; Demo.seen Demo.openHand]
    = Some (false, calls) /\
    HandController.pinchEvents calls = [true; false].
Proof.
  apply (proj2 (proj2 (proj2 (pinch_is_edge_triggered sqrt_fix)))). reflexivity.
Defined.

(** ** The pinch state downstream of the gesture code *)

Section Downstream.

Variable Math_sqrt : Q -> Q.
Context {Product : Type}.
Variable fashionImages : list Product.

Lemma handleHandMove_isPinching (s : App.State Product) (y : Q) (detected : bool) :
  App.isPinching (App.handleHandMove s y detected) = App.isPinching s.
Proof.
  unfold App.handleHandMove. state_simpl.
  destruct (negb detected || App.isModalOpen s); [reflexivity|].
  destruct (JS.ltb _ _); reflexivity.
Qed.

Lemma handle_isPinching (s : App.State Product) (e : App.UIEvent) :
  App.isPinching (App.handle s e) = App.isPinching s.
Proof.
  destruct e; cbn [App.handle];
    unfold App.onAnimationFrame, App.handlePointerDown, App.handlePointerMove,
      App.handlePointerUp, App.handleWheel, App.onClose;
    try destruct (_ && _); try destruct (_ || _); try destruct (App.isModalOpen s);
    reflexivity.
Qed.

Lemma calls_isPinching (cs : list HandController.Callback) :
  forall s s' : App.State Product,
    App.calls fashionImages s cs = Some s' ->
    App.isPinching s' = last (HandController.pinchEvents cs) (App.isPinching s).
Proof.
  induction cs as [|c cs IH]; intros s s'; cbn [App.calls].
  - now intros [= <-].
  - destruct (App.call fashionImages s c) as [s1|] eqn:Hc; cbn [bind]; [|discriminate].
    intro Hrest. apply IH in Hrest. rewrite Hrest.
    destruct c as [y d|b]; cbn [App.call] in Hc.
    + injection Hc as <-. now rewrite handleHandMove_isPinching.
    + apply handlePinch_isPinching in Hc. rewrite Hc.
      change (HandController.pinchEvents (HandController.onPinch b :: cs))
        with (b :: HandController.pinchEvents cs).
      now rewrite last_cons_default.
Qed.

Lemma predictWebcam_last (w w' : bool) (frame : HandController.Capture)
  (cs : list HandController.Callback) :
  HandController.predictWebcam Math_sqrt w frame = Some (w', cs) ->
  last (HandController.pinchEvents cs) w = w'.
Proof.
  destruct frame as [|[[|landmarks hands]|]]; cbn [HandController.predictWebcam].
  - now intros [= <- <-].
  - destruct w; intros [= <- <-]; reflexivity.
  - destruct (nth_error landmarks 9); cbn [bind]; [|discriminate].
    destruct (HandController.handPinching Math_sqrt landmarks) as [b|];
      cbn [bind]; [|discriminate].
    destruct b, w; intros [= <- <-]; reflexivity.
  - destruct w; intros [= <- <-]; reflexivity.
Qed.

Lemma coupled_step (st st' : Scene.State Product) (i : Scene.Input) :
  coupled st -> Scene.step Math_sqrt fashionImages st i = Some st' -> coupled st'.
Proof.
  unfold coupled. intro Inv. destruct i as [frame|e]; cbn [Scene.step].
  - destruct (HandController.predictWebcam Math_sqrt (Scene.wasPinchingRef st) frame)
      as [[w' cs]|] eqn:Hp; cbn [bind fst snd]; [|discriminate].
    destruct (App.calls fashionImages (Scene.app st) cs) as [s'|] eqn:Hc;
      cbn [bind]; [|discriminate].
    intros [= <-]. cbn [Scene.app Scene.wasPinchingRef].
    apply calls_isPinching in Hc. apply predictWebcam_last in Hp.
    now rewrite Hc, Inv.
  - intros [= <-]. cbn [Scene.app Scene.wasPinchingRef].
    now rewrite handle_isPinching.
Qed.

Lemma coupled_run (inputs : list Scene.Input) :
  forall st st' : Scene.State Product,
    coupled st -> Scene.run Math_sqrt fashionImages st inputs = Some st' -> coupled st'.
Proof.
  induction inputs as [|i inputs IH]; intros st st' Inv; cbn [Scene.run].
  - now intros [= <-].
  - destruct (Scene.step Math_sqrt fashionImages st i) as [st1|] eqn:Hs;
      cbn [bind]; [|discriminate].
    apply IH. eapply coupled_step; eassumption.
Qed.

End Downstream.

(** C9. On any capture in which no hand is detected the gesture code calls
    [onHandMove(0.5, false)] and, if a pinch was latched by an earlier
    capture, [onPinch(false)]; after it, in every state the scene reaches,
    neither [wasPinchingRef] nor the pinch state of [App] is true, and no
    hand is shown as detected. *)
Theorem no_hand_releases_pinch (Math_sqrt : Q -> Q) {Product : Type}
  (fashionImages : list Product) (inputs : list Scene.Input)
  (st : Scene.State Product) (frame : HandController.Capture) :
  Scene.run Math_sqrt fashionImages Scene.initial inputs = Some st ->
  HandController.handless frame = true ->
  HandController.predictWebcam Math_sqrt (Scene.wasPinchingRef st) frame
  = Some (false,
          HandController.onHandMove 0.5 false
          :: (if Scene.wasPinchingRef st then [HandController.onPinch false] else [])) /\
  exists st',
    Scene.step Math_sqrt fashionImages st (Scene.Webcam frame) = Some st' /\
    Scene.wasPinchingRef st' = false /\
    App.isPinching (Scene.app st') = false /\
    App.isHandDetected (Scene.app st') = false.
Proof.
  intros Hrun Hframe.
  assert (Hc : coupled st).
  { eapply coupled_run; [|exact Hrun]. reflexivity. }
  assert (Hp : HandController.predictWebcam Math_sqrt (Scene.wasPinchingRef st) frame
               = Some (false,
                       HandController.onHandMove 0.5 false
                       :: (if Scene.wasPinchingRef st
                           then [HandController.onPinch false] else []))).
  { destruct frame as [|[[|landmarks hands]|]]; try discriminate;
      cbn [HandController.predictWebcam];
      destruct (Scene.wasPinchingRef st); reflexivity. }
  split; [exact Hp|].
  cbn [Scene.step]. rewrite Hp. cbn [bind fst snd].
  unfold coupled in Hc. destruct st as [w s]. cbn [Scene.app Scene.wasPinchingRef] in *.
  destruct w; cbn [App.calls App.call App.handlePinch bind];
    eexists; (split; [reflexivity|]); cbn [Scene.app Scene.wasPinchingRef];
    unfold App.handleHandMove; state_simpl; cbn [negb orb]; state_simpl; auto.
Qed.

Lemma no_hand_releases_pinch_witness :
  Scene.run sqrt_fix Demo.gallery Scene.initial [Scene.Webcam (Demo.seen Demo.pinchedHand)]
  = Some Demo.latched /\
  exists st',
    Scene.step sqrt_fix Demo.gallery Demo.latched (Scene.Webcam Demo.noHand) = Some st' /\
    Scene.wasPinchingRef st' = false /\
    App.isPinching (Scene.app st') = false /\
    App.isHandDetected (Scene.app st') = false.
Proof.
  assert (Hrun : Scene.run sqrt_fix Demo.gallery Scene.initial
                   [Scene.Webcam (Demo.seen Demo.pinchedHand)] = Some Demo.latched)
    by (vm_compute; reflexivity).
  split; [exact Hrun|].
  exact (proj2 (no_hand_releases_pinch sqrt_fix Demo.gallery
                  [Scene.Webcam (Demo.seen Demo.pinchedHand)] Demo.latched Demo.noHand
                  Hrun eq_refl)).
Defined.

(** ** The pinch normalisation *)

(** C10. The pinch distance is never divided by zero: for every four
    landmarks the divisor is the hand scale, or 1 when the hand scale is
    zero, so it is not zero and the normalised pinch times the divisor
    gives back the pinch distance; the pinch boolean is the comparison of
    that quotient with the threshold, and it is defined for every hand
    that has the landmarks the code reads. *)
Theorem normalizedPinch_divisor_nonzero (Math_sqrt : Q -> Q)
  (thumbTip indexTip wrist middleMCP : Landmark.t) :
  ~ HandController.divisor Math_sqrt wrist middleMCP == 0 /\
  (HandController.handScale Math_sqrt wrist middleMCP == 0 ->
   HandController.divisor Math_sqrt wrist middleMCP = 1) /\
  (~ HandController.handScale Math_sqrt wrist middleMCP == 0 ->
   HandController.divisor Math_sqrt wrist middleMCP
   = HandController.handScale Math_sqrt wrist middleMCP) /\
  HandController.normalizedPinch Math_sqrt thumbTip indexTip wrist middleMCP
  * HandController.divisor Math_sqrt wrist middleMCP
  == HandController.pinchDistance Math_sqrt thumbTip indexTip /\
  (HandController.isPinching Math_sqrt thumbTip indexTip wrist middleMCP = true <->
   HandController.normalizedPinch Math_sqrt thumbTip indexTip wrist middleMCP
   < HandController.PINCH_THRESHOLD) /\
  (forall landmarks : list Landmark.t,
      (10 <= length landmarks)%nat ->
      exists b, HandController.handPinching Math_sqrt landmarks = Some b).
Proof.
  assert (Hd : ~ HandController.divisor Math_sqrt wrist middleMCP == 0).
  { unfold HandController.divisor, JS.or_else.
    destruct (Qeq_bool (HandController.handScale Math_sqrt wrist middleMCP) 0) eqn:E.
    - discriminate.
    - now apply Qeq_bool_neq. }
  split; [exact Hd|]. split; [|split; [|split; [|split]]].
  - intro H0. unfold HandController.divisor, JS.or_else.
    apply Qeq_eq_bool in H0. now rewrite H0.
  - intro Hn. unfold HandController.divisor, JS.or_else.
    destruct (Qeq_bool (HandController.handScale Math_sqrt wrist middleMCP) 0) eqn:E;
      [|reflexivity].
    apply Qeq_bool_eq in E. contradiction.
  - unfold HandController.normalizedPinch. field. exact Hd.
  - unfold HandController.isPinching. apply ltb_true.
  - apply handPinching_total.
Qed.

Lemma normalizedPinch_divisor_nonzero_witness :
  HandController.handScale sqrt_fix (Landmark.mk 0.5 0.5) (Landmark.mk 0.5 0.5) == 0 /\
  HandController.divisor sqrt_fix (Landmark.mk 0.5 0.5) (Landmark.mk 0.5 0.5) = 1 /\
  exists b, HandController.handPinching sqrt_fix Demo.pinchedHand = Some b.
Proof.
  pose proof (normalizedPinch_divisor_nonzero sqrt_fix
                (Landmark.mk 0.47 0.46) (Landmark.mk 0.5 0.5)
                (Landmark.mk 0.5 0.5) (Landmark.mk 0.5 0.5)) as (_ & H1 & _ & _ & _ & Ht).
  split; [reflexivity|]. split.
  - apply H1. reflexivity.
  - apply Ht. cbn. lia.
Defined.

(** ** A pinch while the modal is open *)

Lemma predictWebcam_rising (Math_sqrt : Q -> Q) (frame : HandController.Capture) :
  HandController.framePinching Math_sqrt frame = Some true ->
  exists y,
    HandController.predictWebcam Math_sqrt false frame
    = Some (true, [HandController.onHandMove y true; HandController.onPinch true]).
Proof.
  destruct frame as [|[[|landmarks hands]|]];
    cbn [HandController.framePinching HandController.predictWebcam]; try discriminate.
  intro Hb. destruct (handPinching_nth9 _ _ _ Hb) as [l9 ->]. rewrite Hb. cbn [bind].
  now exists (Landmark.y l9).
Qed.

(** C4. A pinch-open event that arrives while the modal is open closes the
    modal and selects nothing: the selected product and the camera depth
    stay as they were, and the outcome does not depend on the gallery, so
    the scan of the items is not run.  So does the rising edge of a capture
    of a pinching hand, through the gesture code. *)
Theorem handlePinch_closes_open_modal {Product : Type} (Math_sqrt : Q -> Q)
  (fashionImages : list Product) (s : App.State Product) :
  App.isModalOpen s = true ->
  App.handlePinch fashionImages s true
  = Some (App.setIsModalOpen false (App.setIsPinching true s)) /\
  (forall s', App.handlePinch fashionImages s true = Some s' ->
     App.isModalOpen s' = false /\
     App.selectedProduct s' = App.selectedProduct s /\
     App.zPosition s' = App.zPosition s) /\
  (forall others : list Product,
     App.handlePinch others s true = App.handlePinch fashionImages s true) /\
  (forall frame : HandController.Capture,
     HandController.framePinching Math_sqrt frame = Some true ->
     exists st',
       Scene.step Math_sqrt fashionImages (Scene.mkState false s) (Scene.Webcam frame)
       = Some st' /\
       Scene.wasPinchingRef st' = true /\
       App.isModalOpen (Scene.app st') = false /\
       App.selectedProduct (Scene.app st') = App.selectedProduct s /\
       App.zPosition (Scene.app st') = App.zPosition s).
Proof.
  intro Hopen.
  assert (E : forall (imgs : list Product) (s0 : App.State Product),
             App.isModalOpen s0 = true ->
             App.handlePinch imgs s0 true
             = Some (App.setIsModalOpen false (App.setIsPinching true s0))).
  { intros imgs s0 H0. unfold App.handlePinch. state_simpl. now rewrite H0. }
  split; [now apply E|]. split; [|split].
  - intros s'. rewrite E by assumption. intros [= <-]. auto.
  - intro others. now rewrite !E.
  - intros frame Hb. destruct (predictWebcam_rising Math_sqrt frame Hb) as [y Hp].
    cbn [Scene.step Scene.wasPinchingRef Scene.app]. rewrite Hp.
    cbn [bind fst snd App.calls App.call].
    assert (Hmove : App.handleHandMove s y true
                    = App.setHandVelocity 0 (App.setIsHandDetected true s)).
    { unfold App.handleHandMove. state_simpl. now rewrite Hopen. }
    rewrite Hmove, E by (state_simpl; exact Hopen). cbn [bind].
    eexists. split; [reflexivity|]. state_simpl.
    cbn [Scene.wasPinchingRef Scene.app]. state_simpl. auto.
Qed.

Lemma handlePinch_closes_open_modal_witness :
  App.isModalOpen Demo.inspecting = true /\
  App.handlePinch Demo.gallery Demo.inspecting true
  = Some (App.setIsModalOpen false (App.setIsPinching true Demo.inspecting)).
Proof.
  split; [reflexivity|].
  apply (handlePinch_closes_open_modal sqrt_fix Demo.gallery Demo.inspecting). reflexivity.
Defined.

(** * Further properties of the code *)

(** ** The spread of [generateRandomPosition] *)

Lemma rem_Q_bounds (a b : Z) :
  (0 <= a)%Z -> (0 < b)%Z ->
  0 <= inject_Z (Z.rem a b) /\ inject_Z (Z.rem a b) <= inject_Z (b - 1).
Proof.
  intros Ha Hb. destruct (Z.rem_bound_pos a b Ha Hb) as [L U].
  split.
  - change 0 with (inject_Z 0). rewrite <- Zle_Qle. exact L.
  - rewrite <- Zle_Qle. lia.
Qed.

(** X1. For an index that is not negative the placement stays within a
    fixed box: x in [-750, 735], y in [-500, 480], rotation in [-15, 14],
    scale in [0.8, 1.19], and the depth is not positive. *)
Theorem generateRandomPosition_spread (idx : Z) :
  (0 <= idx)%Z ->
  (-750 <= Position.x (Utils.generateRandomPosition idx) /\
   Position.x (Utils.generateRandomPosition idx) <= 735) /\
  (-500 <= Position.y (Utils.generateRandomPosition idx) /\
   Position.y (Utils.generateRandomPosition idx) <= 480) /\
  (-15 <= Position.rotation (Utils.generateRandomPosition idx) /\
   Position.rotation (Utils.generateRandomPosition idx) <= 14) /\
  (0.8 <= Position.scale (Utils.generateRandomPosition idx) /\
   Position.scale (Utils.generateRandomPosition idx) <= 1.19) /\
  Position.z (Utils.generateRandomPosition idx) <= 0.
Proof.
  intro Hidx. unfold Utils.generateRandomPosition.
  cbn [Position.x Position.y Position.z Position.rotation Position.scale].
  assert (Hseed : (0 <= idx * 1337)%Z) by lia.
  destruct (rem_Q_bounds (idx * 1337) 100 Hseed eq_refl) as [X0 X1].
  destruct (rem_Q_bounds (idx * 1337) 30 Hseed eq_refl) as [R0 R1].
  destruct (rem_Q_bounds (idx * 1337) 40 Hseed eq_refl) as [S0 S1].
  assert (Hy : (Z.rem (idx * 1337 * 2) 100 = 2 * Z.rem (idx * 1337) 50)%Z).
  { rewrite !Z.rem_mod_nonneg by lia.
    replace (idx * 1337 * 2)%Z with (2 * (idx * 1337))%Z by ring.
    change 100%Z with (2 * 50)%Z. rewrite Zmult_mod_distr_l. reflexivity. }
  destruct (rem_Q_bounds (idx * 1337) 50 Hseed eq_refl) as [Y0 Y1].
  rewrite Hy, inject_Z_mult.
  change (inject_Z (100 - 1)) with 99 in X1. change (inject_Z (30 - 1)) with 29 in R1.
  change (inject_Z (40 - 1)) with 39 in S1. change (inject_Z (50 - 1)) with 49 in Y1.
  change (inject_Z 2) with 2.
  assert (Hz : 0 <= inject_Z idx).
  { change 0 with (inject_Z 0). rewrite <- Zle_Qle. exact Hidx. }
  unfold Utils.stepDistance.
  assert (Hs0 : 0 <= inject_Z (Z.rem (idx * 1337) 40) / 100).
  { apply Qle_shift_div_l; [reflexivity | lra]. }
  assert (Hs1 : inject_Z (Z.rem (idx * 1337) 40) / 100 <= 0.39).
  { apply Qle_shift_div_r; [reflexivity | lra]. }
  set (q := inject_Z (Z.rem (idx * 1337) 40) / 100) in *.
  repeat match goal with |- _ /\ _ => split end; lra.
Qed.

Lemma generateRandomPosition_spread_witness :
  (0 <= 7)%Z /\ Position.x (Utils.generateRandomPosition 7) <= 735.
Proof.
  split; [lia|].
  exact (proj2 (proj1 (generateRandomPosition_spread 7 ltac:(lia)))).
Defined.

(** X2. Apart from the depth the placements repeat every 600 indices: for
    an index that is not negative, x, y, rotation and scale of index
    [idx + 600] are those of index [idx], while the depth is 240000
    further away. *)
Theorem generateRandomPosition_period (idx : Z) :
  (0 <= idx)%Z ->
  Position.x (Utils.generateRandomPosition (idx + 600))
  = Position.x (Utils.generateRandomPosition idx) /\
  Position.y (Utils.generateRandomPosition (idx + 600))
  = Position.y (Utils.generateRandomPosition idx) /\
  Position.rotation (Utils.generateRandomPosition (idx + 600))
  = Position.rotation (Utils.generateRandomPosition idx) /\
  Position.scale (Utils.generateRandomPosition (idx + 600))
  = Position.scale (Utils.generateRandomPosition idx) /\
  Position.z (Utils.generateRandomPosition (idx + 600))
  == Position.z (Utils.generateRandomPosition idx) - 240000.
Proof.
  intro Hidx. unfold Utils.generateRandomPosition.
  cbn [Position.x Position.y Position.z Position.rotation Position.scale].
  assert (H100 : (Z.rem ((idx + 600) * 1337) 100 = Z.rem (idx * 1337) 100)%Z).
  { rewrite !Z.rem_mod_nonneg by lia.
    replace ((idx + 600) * 1337)%Z with (idx * 1337 + 8022 * 100)%Z by ring.
    apply Z_mod_plus_full. }
  assert (H30 : (Z.rem ((idx + 600) * 1337) 30 = Z.rem (idx * 1337) 30)%Z).
  { rewrite !Z.rem_mod_nonneg by lia.
    replace ((idx + 600) * 1337)%Z with (idx * 1337 + 26740 * 30)%Z by ring.
    apply Z_mod_plus_full. }
  assert (H40 : (Z.rem ((idx + 600) * 1337) 40 = Z.rem (idx * 1337) 40)%Z).
  { rewrite !Z.rem_mod_nonneg by lia.
    replace ((idx + 600) * 1337)%Z with (idx * 1337 + 20055 * 40)%Z by ring.
    apply Z_mod_plus_full. }
  assert (Hy : (Z.rem ((idx + 600) * 1337 * 2) 100 = Z.rem (idx * 1337 * 2) 100)%Z).
  { rewrite !Z.rem_mod_nonneg by lia.
    replace ((idx + 600) * 1337 * 2)%Z with (idx * 1337 * 2 + 16044 * 100)%Z by ring.
    apply Z_mod_plus_full. }
  rewrite H100, H30, H40, Hy.
  split; [reflexivity|]. split; [reflexivity|]. split; [reflexivity|].
  split; [reflexivity|].
  rewrite inject_Z_plus. unfold Utils.stepDistance. change (inject_Z 600) with 600. ring.
Qed.

Lemma generateRandomPosition_period_witness :
  (0 <= 3)%Z /\
  Position.x (Utils.generateRandomPosition (3 + 600))
  = Position.x (Utils.generateRandomPosition 3).
Proof.
  split; [lia|].
  exact (proj1 (generateRandomPosition_period 3 ltac:(lia))).
Defined.

(** ** The depth projection beyond and between its breakpoints *)

Lemma Qdiv_unit_interval (c u : Q) :
  0 < c -> 0 <= u -> u <= c -> 0 <= u / c /\ u / c <= 1.
Proof.
  intros Hc L U. split.
  - apply Qle_shift_div_l; [exact Hc | lra].
  - apply Qle_shift_div_r; [exact Hc | lra].
Qed.

Ltac unfold_transform :=
  unfold FloatingImage.opacity, FloatingImage.scale, FloatingImage.blur,
    FloatingImage.useTransform, FloatingImage.clamp, JS.gtb;
  simpl hd; simpl last.

Lemma opacity_below (v : Q) : v <= -2000 -> FloatingImage.opacity v == 0.
Proof.
  intro U. unfold_transform.
  case_ltb 400 v; [lra|]. case_ltb v (-2000); [reflexivity|].
  assert (Hv : v == -2000) by lra.
  unfold FloatingImage.interpolator. case_ltb v (-500); [|lra].
  unfold FloatingImage.mixNumber, FloatingImage.progress. eval_eqb.
  rewrite Hv. reflexivity.
Qed.

Lemma opacity_above (v : Q) : 400 <= v -> FloatingImage.opacity v == 0.
Proof.
  intro L. unfold_transform.
  case_ltb 400 v; [reflexivity|].
  assert (Hv : v == 400) by lra. case_ltb v (-2000); [lra|].
  unfold FloatingImage.interpolator. case_ltb v (-500); [lra|]. case_ltb v 0; [lra|].
  unfold FloatingImage.mixNumber, FloatingImage.progress. eval_eqb.
  rewrite Hv. reflexivity.
Qed.

Lemma scale_below (v : Q) : v <= -2000 -> FloatingImage.scale v == 0.5.
Proof.
  intro U. unfold_transform.
  case_ltb 0 v; [lra|]. case_ltb v (-2000); [reflexivity|].
  assert (Hv : v == -2000) by lra.
  unfold FloatingImage.interpolator, FloatingImage.mixNumber, FloatingImage.progress.
  eval_eqb. rewrite Hv. reflexivity.
Qed.

Lemma scale_above (v : Q) : 0 <= v -> FloatingImage.scale v == 1.2.
Proof.
  intro L. unfold_transform.
  case_ltb 0 v; [reflexivity|].
  assert (Hv : v == 0) by lra. case_ltb v (-2000); [lra|].
  unfold FloatingImage.interpolator, FloatingImage.mixNumber, FloatingImage.progress.
  eval_eqb. rewrite Hv. reflexivity.
Qed.

Lemma blur_below (v : Q) : v <= -2000 -> FloatingImage.blur v == 4.
Proof.
  intro U. unfold_transform.
  case_ltb 0 v; [lra|]. case_ltb v (-2000); [reflexivity|].
  assert (Hv : v == -2000) by lra.
  unfold FloatingImage.interpolator. case_ltb v (-500); [|lra].
  unfold FloatingImage.mixNumber, FloatingImage.progress. eval_eqb.
  rewrite Hv. reflexivity.
Qed.

Lemma blur_clearing (v : Q) :
  -2000 <= v -> v <= -500 -> FloatingImage.blur v == 4 - 4 * ((v + 2000) / 1500).
Proof.
  intros L U. unfold_transform.
  case_ltb 0 v; [lra|]. case_ltb v (-2000); [lra|].
  unfold FloatingImage.interpolator. case_ltb v (-500).
  - unfold FloatingImage.mixNumber, FloatingImage.progress. eval_eqb. field.
  - assert (Hv : v == -500) by lra.
    unfold FloatingImage.mixNumber, FloatingImage.progress. eval_eqb.
    rewrite Hv. reflexivity.
Qed.

Lemma blur_clear (v : Q) : -500 <= v -> FloatingImage.blur v == 0.
Proof.
  intro L. unfold_transform.
  case_ltb 0 v.
  - case_ltb 0 (-2000); [lra|].
    unfold FloatingImage.interpolator. case_ltb 0 (-500); [lra|].
    unfold FloatingImage.mixNumber, FloatingImage.progress. eval_eqb. reflexivity.
  - case_ltb v (-2000); [lra|].
    unfold FloatingImage.interpolator. case_ltb v (-500); [lra|].
    unfold FloatingImage.mixNumber, FloatingImage.progress. eval_eqb. field.
Qed.

Ltac finish_range H :=
  first [ lra | left; lra | right; lra | destruct H; lra | split; lra ].

(** X3. The opacity of an item lies between 0 and 1 at every depth; it is
    0 exactly at the depths up to -2000 and from 400 on, and 1 exactly
    between -500 and 0. *)
Theorem opacity_range (v : Q) :
  0 <= FloatingImage.opacity v /\ FloatingImage.opacity v <= 1 /\
  (FloatingImage.opacity v == 0 <-> v <= -2000 \/ 400 <= v) /\
  (FloatingImage.opacity v == 1 <-> -500 <= v /\ v <= 0).
Proof.
  destruct (Qlt_le_dec v (-2000)) as [A|A].
  { rewrite (opacity_below v) by lra.
    split; [lra|]. split; [lra|]. split; split; intro H; finish_range H. }
  destruct (Qlt_le_dec v (-500)) as [B|B].
  { rewrite (opacity_rising v) by lra.
    destruct (Qdiv_unit_interval 1500 (v + 2000)) as [H0 H1]; [reflexivity | lra | lra |].
    assert (H2 : (v + 2000) / 1500 * 1500 == v + 2000) by (field).
    set (q := (v + 2000) / 1500) in *. clearbody q.
    split; [lra|]. split; [lra|]. split; split; intro H; finish_range H. }
  destruct (Qlt_le_dec 0 v) as [C|C].
  2:{ rewrite (opacity_plateau v) by lra.
      split; [lra|]. split; [lra|]. split; split; intro H; finish_range H. }
  destruct (Qlt_le_dec 400 v) as [D|D].
  { rewrite (opacity_above v) by lra.
    split; [lra|]. split; [lra|]. split; split; intro H; finish_range H. }
  rewrite (opacity_falling v) by lra.
  destruct (Qdiv_unit_interval 400 v) as [H0 H1]; [reflexivity | lra | lra |].
  assert (H2 : v / 400 * 400 == v) by (field).
  set (q := v / 400) in *. clearbody q.
  split; [lra|]. split; [lra|]. split; split; intro H; finish_range H.
Qed.

(** X4. The scale of an item lies between 0.5 and 1.2 and its blur between
    0 and 4 at every depth; the scale is 0.5 up to -2000 and 1.2 from 0 on,
    the blur is 4 up to -2000 and 0 exactly from -500 on, so an item at
    full opacity is never blurred. *)
Theorem scale_blur_range (v : Q) :
  (0.5 <= FloatingImage.scale v /\ FloatingImage.scale v <= 1.2) /\
  (v <= -2000 -> FloatingImage.scale v == 0.5) /\
  (0 <= v -> FloatingImage.scale v == 1.2) /\
  (0 <= FloatingImage.blur v /\ FloatingImage.blur v <= 4) /\
  (v <= -2000 -> FloatingImage.blur v == 4) /\
  (FloatingImage.blur v == 0 <-> -500 <= v) /\
  (FloatingImage.opacity v == 1 -> FloatingImage.blur v == 0).
Proof.
  assert (Hblur0 : FloatingImage.blur v == 0 <-> -500 <= v).
  { split; [|apply blur_clear]. intro H.
    destruct (Qlt_le_dec v (-500)) as [B|B]; [|exact B]. exfalso.
    destruct (Qlt_le_dec v (-2000)) as [A|A].
    - rewrite (blur_below v) in H by lra. lra.
    - rewrite (blur_clearing v) in H by lra.
      assert (H2 : (v + 2000) / 1500 * 1500 == v + 2000) by (field).
      set (q := (v + 2000) / 1500) in *. clearbody q. lra. }
  split; [|split; [apply scale_below|split; [apply scale_above|split; [|split;
    [apply blur_below|split; [exact Hblur0|]]]]]].
  - clear Hblur0.
    destruct (Qlt_le_dec v (-2000)) as [A|A]; [rewrite (scale_below v) by lra; split; lra|].
    destruct (Qlt_le_dec 0 v) as [C|C]; [rewrite (scale_above v) by lra; split; lra|].
    rewrite (scale_rising v) by lra.
    destruct (Qdiv_unit_interval 2000 (v + 2000)) as [H0 H1]; [reflexivity | lra | lra |].
    set (q := (v + 2000) / 2000) in *. clearbody q. split; lra.
  - clear Hblur0.
    destruct (Qlt_le_dec v (-2000)) as [A|A]; [rewrite (blur_below v) by lra; split; lra|].
    destruct (Qlt_le_dec v (-500)) as [B|B]; [|rewrite (blur_clear v) by lra; split; lra].
    rewrite (blur_clearing v) by lra.
    destruct (Qdiv_unit_interval 1500 (v + 2000)) as [H0 H1]; [reflexivity | lra | lra |].
    set (q := (v + 2000) / 1500) in *. clearbody q. split; lra.
  - intro H1. apply Hblur0.
    destruct (Qlt_le_dec v (-500)) as [B|B]; [|exact B]. exfalso.
    destruct (Qlt_le_dec v (-2000)) as [A|A].
    + rewrite (opacity_below v) in H1 by lra. lra.
    + rewrite (opacity_rising v) in H1 by lra.
      assert (H2 : (v + 2000) / 1500 * 1500 == v + 2000) by (field).
      set (q := (v + 2000) / 1500) in *. clearbody q. lra.
Qed.

(** ** The shape of the gesture velocity *)

Lemma Math_sign_pos (a : Q) : 0 < a -> JS.Math_sign a = 1.
Proof.
  intro H. unfold JS.Math_sign.
  destruct (a ?= 0) eqn:E; [apply Qeq_alt in E; lra | apply Qlt_alt in E; lra | reflexivity].
Qed.

Lemma Math_sign_neg (a : Q) : a < 0 -> JS.Math_sign a = -1.
Proof.
  intro H. unfold JS.Math_sign.
  destruct (a ?= 0) eqn:E; [apply Qeq_alt in E; lra | reflexivity | apply Qgt_alt in E; lra].
Qed.

(** The velocity set by a detected hand while the modal is closed: linear in
    the distance of the hand beyond the band, zero within. *)
Lemma velocity_profile {Product : Type} (s : App.State Product) (y : Q) :
  App.isModalOpen s = false ->
  (y <= 0.35 -> App.handVelocity (App.handleHandMove s y true) == (0.35 - y) * 25) /\
  (0.35 <= y -> y <= 0.65 -> App.handVelocity (App.handleHandMove s y true) == 0) /\
  (0.65 <= y -> App.handVelocity (App.handleHandMove s y true) == (0.65 - y) * 25).
Proof.
  intro Hm. unfold App.handleHandMove. state_simpl. rewrite Hm. cbn [negb orb].
  unfold JS.Math_abs.
  split; [|split].
  - intro Hy. pose proof (Qabs_pos (0.5 - y) ltac:(lra)) as Ha.
    case_ltb (Qabs (0.5 - y)) 0.15; [lra|]. state_simpl.
    rewrite Math_sign_pos by lra. rewrite Ha. ring.
  - intros L U. destruct (Qlt_le_dec y 0.5) as [C|C].
    + pose proof (Qabs_pos (0.5 - y) ltac:(lra)) as Ha.
      case_ltb (Qabs (0.5 - y)) 0.15; [reflexivity|]. state_simpl.
      assert (Hz : Qabs (0.5 - y) - 0.15 == 0) by lra. rewrite Hz. ring.
    + pose proof (Qabs_neg (0.5 - y) ltac:(lra)) as Ha.
      case_ltb (Qabs (0.5 - y)) 0.15; [reflexivity|]. state_simpl.
      assert (Hz : Qabs (0.5 - y) - 0.15 == 0) by lra. rewrite Hz. ring.
  - intro Hy. pose proof (Qabs_neg (0.5 - y) ltac:(lra)) as Ha.
    case_ltb (Qabs (0.5 - y)) 0.15; [lra|]. state_simpl.
    rewrite Math_sign_neg by lra. rewrite Ha. ring.
Qed.

Lemma velocity_unset {Product : Type} (s : App.State Product) (y : Q) (detected : bool) :
  detected = false \/ App.isModalOpen s = true ->
  App.handVelocity (App.handleHandMove s y detected) = 0.
Proof.
  intro H. unfold App.handleHandMove. state_simpl.
  destruct H as [-> | ->]; [reflexivity | now rewrite orb_true_r].
Qed.

(** X5. With the modal closed a detected hand above the band (y < 0.35)
    sets a positive velocity and one below it (y > 0.65) a negative one,
    and for a hand inside the frame (0 <= y <= 1) the velocity stays
    within 8.75 per frame either way. *)
Theorem handleHandMove_velocity_bounds {Product : Type} (s : App.State Product) (y : Q) :
  App.isModalOpen s = false ->
  (y < 0.35 -> 0 < App.handVelocity (App.handleHandMove s y true)) /\
  (0.65 < y -> App.handVelocity (App.handleHandMove s y true) < 0) /\
  (0 <= y -> y <= 1 ->
   -8.75 <= App.handVelocity (App.handleHandMove s y true) /\
   App.handVelocity (App.handleHandMove s y true) <= 8.75).
Proof.
  intro Hm. destruct (velocity_profile s y Hm) as (Hup & Hmid & Hdown).
  split; [|split].
  - intro Hy. rewrite Hup by lra. lra.
  - intro Hy. rewrite Hdown by lra. lra.
  - intros L U. destruct (Qlt_le_dec y 0.35) as [A|A].
    + rewrite Hup by lra. split; lra.
    + destruct (Qlt_le_dec 0.65 y) as [B|B].
      * rewrite Hdown by lra. split; lra.
      * rewrite Hmid by lra. split; lra.
Qed.

Lemma handleHandMove_velocity_bounds_witness :
  App.isModalOpen (@App.initial string) = false /\
  0 < App.handVelocity (App.handleHandMove (@App.initial string) 0.2 true).
Proof.
  split; [reflexivity|].
  apply (proj1 (handleHandMove_velocity_bounds (@App.initial string) 0.2 eq_refl)).
  reflexivity.
Defined.

(** X6. The velocity set by [handleHandMove] never increases with the
    vertical position: in any state and for either value of [detected], a
    lower hand (larger y) gives a velocity that is at most that of a
    higher hand. *)
Theorem handleHandMove_velocity_monotone {Product : Type} (s : App.State Product)
  (y1 y2 : Q) (detected : bool) :
  y1 <= y2 ->
  App.handVelocity (App.handleHandMove s y2 detected)
  <= App.handVelocity (App.handleHandMove s y1 detected).
Proof.
  intro Hy.
  destruct detected.
  2:{ rewrite !velocity_unset by (now left). apply Qle_refl. }
  destruct (App.isModalOpen s) eqn:Hm.
  { rewrite !velocity_unset by (now right). apply Qle_refl. }
  destruct (velocity_profile s y1 Hm) as (Hup1 & Hmid1 & Hdown1).
  destruct (velocity_profile s y2 Hm) as (Hup2 & Hmid2 & Hdown2).
  destruct (Qlt_le_dec y1 0.35) as [A1|A1]; [rewrite Hup1 by lra|
    destruct (Qlt_le_dec 0.65 y1) as [B1|B1]; [rewrite Hdown1 by lra|rewrite Hmid1 by lra]];
  (destruct (Qlt_le_dec y2 0.35) as [A2|A2]; [rewrite Hup2 by lra|
    destruct (Qlt_le_dec 0.65 y2) as [B2|B2]; [rewrite Hdown2 by lra|rewrite Hmid2 by lra]]);
  lra.
Qed.

Lemma handleHandMove_velocity_monotone_witness :
  0.2 <= 0.8 /\
  App.handVelocity (App.handleHandMove (@App.initial string) 0.8 true)
  <= App.handVelocity (App.handleHandMove (@App.initial string) 0.2 true).
Proof.
  split; [discriminate|].
  apply (handleHandMove_velocity_monotone (@App.initial string) 0.2 0.8 true).
  discriminate.
Defined.

(** X7. The camera only follows a hand that is clearly off centre.  After
    a detected hand is reported with the modal closed, the next animation
    frame leaves the state as it is when 0.346 < y < 0.654, and moves the
    camera by the velocity when the hand is further out: by
    (0.35 - y) * 25 when y < 0.346 and by (0.65 - y) * 25 when
    y > 0.654. *)
Theorem animation_frame_follows_hand {Product : Type} (s : App.State Product) (y : Q) :
  App.isModalOpen s = false ->
  (0.346 < y -> y < 0.654 ->
   App.onAnimationFrame (App.handleHandMove s y true) = App.handleHandMove s y true) /\
  (y < 0.346 ->
   App.zPosition (App.onAnimationFrame (App.handleHandMove s y true))
   == App.zPosition s + (0.35 - y) * 25) /\
  (0.654 < y ->
   App.zPosition (App.onAnimationFrame (App.handleHandMove s y true))
   == App.zPosition s + (0.65 - y) * 25).
Proof.
  intro Hm. destruct (velocity_profile s y Hm) as (Hup & Hmid & Hdown).
  assert (Hz : App.zPosition (App.handleHandMove s y true) = App.zPosition s).
  { unfold App.handleHandMove. state_simpl. rewrite Hm. cbn [negb orb].
    destruct (JS.ltb _ _); reflexivity. }
  assert (Hopen : App.isModalOpen (App.handleHandMove s y true) = false).
  { unfold App.handleHandMove. state_simpl. rewrite Hm. cbn [negb orb].
    destruct (JS.ltb _ _); state_simpl; exact Hm. }
  unfold App.onAnimationFrame, JS.gtb, JS.Math_abs. rewrite Hopen.
  set (s1 := App.handleHandMove s y true) in *.
  set (v := App.handVelocity s1) in *.
  split; [|split].
  - intros L U. case_ltb 0.1 (Qabs v); [|reflexivity]. exfalso.
    destruct (Qlt_le_dec y 0.35) as [A|A].
    + rewrite Hup in H by lra. rewrite Qabs_pos in H by lra. lra.
    + destruct (Qlt_le_dec 0.65 y) as [B|B].
      * rewrite Hdown in H by lra. rewrite Qabs_neg in H by lra. lra.
      * rewrite Hmid in H by lra. vm_compute in H. discriminate.
  - intro Hy. case_ltb 0.1 (Qabs v).
    + cbn [andb negb]. state_simpl. rewrite Hz, Hup by lra. reflexivity.
    + exfalso. rewrite Hup in H by lra. rewrite Qabs_pos in H by lra. lra.
  - intro Hy. case_ltb 0.1 (Qabs v).
    + cbn [andb negb]. state_simpl. rewrite Hz, Hdown by lra. reflexivity.
    + exfalso. rewrite Hdown in H by lra. rewrite Qabs_neg in H by lra. lra.
Qed.

Lemma animation_frame_follows_hand_witness :
  App.isModalOpen (@App.initial string) = false /\
  App.zPosition (App.onAnimationFrame (App.handleHandMove (@App.initial string) 0.1 true))
  == 6.25.
Proof.
  split; [reflexivity|].
  rewrite (proj1 (proj2 (animation_frame_follows_hand (@App.initial string) 0.1 eq_refl)))
    by reflexivity.
  reflexivity.
Defined.

(** ** Drag and wheel *)

Section Pointer.

Context {Product : Type}.
Variable fashionImages : list Product.

Lemma run_invariant (P : App.State Product -> Prop) :
  (forall s e s', P s -> App.step fashionImages s e = Some s' -> P s') ->
  forall (events : list App.Event) (s s' : App.State Product),
    P s -> App.run fashionImages s events = Some s' -> P s'.
Proof.
  intros Hstep events. induction events as [|e events IH]; intros s s' Hs; cbn [App.run].
  - now intros [= <-].
  - destruct (App.step fashionImages s e) as [s1|] eqn:E; cbn [bind]; [|discriminate].
    apply IH. eapply Hstep; eassumption.
Qed.

Lemma drag_moves (ys : list Q) :
  forall s : App.State Product,
    App.isDragging s = true -> App.isModalOpen s = false ->
    exists s',
      App.run fashionImages s (moves ys) = Some s' /\
      App.zPosition s' == App.zPosition s + (last ys (App.lastY s) - App.lastY s) * 2.5 /\
      App.lastY s' = last ys (App.lastY s) /\
      App.isDragging s' = true /\ App.isModalOpen s' = false.
Proof.
  induction ys as [|y ys IH]; intros s Hd Hm.
  - exists s. cbn [moves map App.run last]. repeat (split; [reflexivity|]). 
    split; [ring|]. auto.
  - cbn [moves map App.run App.step App.handle bind].
    unfold App.handlePointerMove. rewrite Hd, Hm. cbn [negb orb]. state_simpl.
    match goal with |- context [App.run _ ?s1 _] => destruct (IH s1) as (s' & Hr & Hz & Hl & Hd' & Hm') end;
      [exact Hd | exact Hm |].
    state_simpl. exists s'. split; [exact Hr|]. rewrite last_cons_default.
    split; [rewrite Hz; ring|]. auto.
Qed.

Lemma idle_moves (zs : list Q) (s : App.State Product) :
  App.isDragging s = false -> App.run fashionImages s (moves zs) = Some s.
Proof.
  intro Hd. induction zs as [|z zs IH]; [reflexivity|].
  cbn [moves map App.run App.step App.handle bind].
  unfold App.handlePointerMove. rewrite Hd. cbn [negb orb]. exact IH.
Qed.

End Pointer.

(** X8. A drag moves the camera by 2.5 times the net pointer travel,
    whatever the path: with the modal closed, pointer down at [y0] followed
    by moves through [ys] leaves the camera at its depth plus
    [2.5 * (last - y0)], where [last] is the final pointer position (or
    [y0] when there is no move); after pointer up, further moves change
    nothing. *)
Theorem drag_is_path_independent {Product : Type} (fashionImages : list Product)
  (s : App.State Product) (y0 : Q) (ys zs : list Q) :
  App.isModalOpen s = false ->
  exists s',
    App.run fashionImages s (App.FromUI (App.PointerDown y0) :: moves ys) = Some s' /\
    App.zPosition s' == App.zPosition s + 2.5 * (last ys y0 - y0) /\
    App.lastY s' = last ys y0 /\
    App.run fashionImages s' (App.FromUI App.PointerUp :: moves zs)
    = Some (App.handlePointerUp s').
Proof.
  intro Hm. cbn [App.run App.step App.handle bind].
  unfold App.handlePointerDown. rewrite Hm.
  destruct (drag_moves fashionImages ys (App.lastY_set y0 (App.setIsDragging true s)))
    as (s' & Hr & Hz & Hl & Hd & Hm'); [reflexivity | exact Hm |].
  state_simpl. exists s'. split; [exact Hr|]. split; [rewrite Hz; ring|].
  split; [exact Hl|]. apply idle_moves. reflexivity.
Qed.

Lemma drag_is_path_independent_witness :
  App.isModalOpen (@App.initial string) = false /\
  exists s',
    App.run Demo.gallery App.initial
      (App.FromUI (App.PointerDown 100) :: moves [180; 40; 300]) = Some s' /\
    App.zPosition s' == 500.
Proof.
  split; [reflexivity|].
  destruct (drag_is_path_independent Demo.gallery (@App.initial string) 100 [180; 40; 300] []
              eq_refl) as (s' & Hr & Hz & _).
  exists s'. split; [exact Hr|]. rewrite Hz. reflexivity.
Defined.

(** X9. Wheel turns add up: with the modal closed, a sequence of wheel
    events moves the camera by 1.5 times the sum of their deltas and
    changes nothing else of the camera state. *)
Theorem wheel_turns_add_up {Product : Type} (fashionImages : list Product)
  (ds : list Q) (s : App.State Product) :
  App.isModalOpen s = false ->
  exists s',
    App.run fashionImages s (wheels ds) = Some s' /\
    App.zPosition s' == App.zPosition s + 1.5 * Qsum ds /\
    App.isModalOpen s' = false /\
    App.handVelocity s' = App.handVelocity s.
Proof.
  revert s. induction ds as [|d ds IH]; intros s Hm.
  - exists s. cbn [wheels map App.run Qsum fold_right]. split; [reflexivity|].
    split; [ring|]. auto.
  - cbn [wheels map App.run App.step App.handle bind Qsum fold_right].
    unfold App.handleWheel. rewrite Hm.
    destruct (IH (App.zPosition_set (App.zPosition s + d * 1.5) s) Hm)
      as (s' & Hr & Hz & Hm' & Hv).
    state_simpl. exists s'. split; [exact Hr|].
    split; [rewrite Hz; unfold Qsum; ring|]. auto.
Qed.

Lemma wheel_turns_add_up_witness :
  App.isModalOpen (@App.initial string) = false /\
  exists s',
    App.run Demo.gallery App.initial (wheels [100; -40; 20]) = Some s' /\
    App.zPosition s' == 120.
Proof.
  split; [reflexivity|].
  destruct (wheel_turns_add_up Demo.gallery [100; -40; 20] (@App.initial string) eq_refl)
    as (s' & Hr & Hz & _).
  exists s'. split; [exact Hr|]. rewrite Hz. reflexivity.
Defined.

(** ** Invariants of the component *)

Section Invariants.

Context {Product : Type}.
Variable fashionImages : list Product.

Lemma forEach_closest_In (positions : list Position.t) (cam : Q) (imgs : list Product) :
  forall (i : nat) (acc r : App.Scan Product),
    App.forEach positions cam imgs i acc = Some r ->
    forall p, App.closestImg r = Some p -> App.closestImg acc = Some p \/ In p imgs.
Proof.
  induction imgs as [|img imgs IH]; intros i acc r; cbn [App.forEach].
  - intros [= <-] p Hp. now left.
  - destruct (nth_error positions i) as [pos|]; cbn [bind]; [|discriminate].
    intros Hr p Hp. destruct (IH _ _ _ Hr p Hp) as [H|H]; [|right; now right].
    destruct (JS.lt_ext _ _); cbn [App.closestImg] in H.
    + injection H as <-. right. now left.
    + now left.
Qed.

Lemma resolve_In (positions : list Position.t) (cam : Q) (img : Product) :
  App.resolve positions fashionImages cam = Some (Some img) -> In img fashionImages.
Proof.
  unfold App.resolve.
  destruct (App.forEach positions cam fashionImages 0 (App.mkScan None JS.Infinity))
    as [r|] eqn:Hr; cbn [bind]; [|discriminate].
  destruct (App.closestImg r) as [p|] eqn:Hp; [|discriminate].
  destruct (JS.ext_lt _ _); [|discriminate]. intros [= <-].
  destruct (forEach_closest_In _ _ _ _ _ _ Hr p Hp) as [H|H]; [discriminate | exact H].
Qed.

Lemma handlePinch_cases (s s' : App.State Product) :
  App.handlePinch fashionImages s true = Some s' ->
  (App.isModalOpen s = true /\
   s' = App.setIsModalOpen false (App.setIsPinching true s)) \/
  (App.isModalOpen s = false /\
   App.resolve (App.positions fashionImages) fashionImages (App.zPosition s) = Some None /\
   s' = App.setIsPinching true s) \/
  (App.isModalOpen s = false /\
   exists img,
     App.resolve (App.positions fashionImages) fashionImages (App.zPosition s)
     = Some (Some img) /\
     s' = App.setHandVelocity 0
            (App.setIsModalOpen true
               (App.setSelectedProduct (Some img) (App.setIsPinching true s)))).
Proof.
  unfold App.handlePinch. state_simpl.
  destruct (App.isModalOpen s) eqn:Hm.
  - intros [= <-]. left. auto.
  - destruct (App.resolve _ _ _) as [[img|]|] eqn:Hr; cbn [bind]; try discriminate;
      intros [= <-]; right; [right | left]; eauto.
Qed.

End Invariants.

(** X10. The camera never drifts without a hand.  In every state the
    component reaches in which no hand is detected the gesture velocity is
    zero and the animation frame leaves the state as it is. *)
Theorem no_hand_no_drift {Product : Type} (fashionImages : list Product)
  (events : list App.Event) (s : App.State Product) :
  App.run fashionImages App.initial events = Some s ->
  App.isHandDetected s = false ->
  App.handVelocity s = 0 /\ App.onAnimationFrame s = s.
Proof.
  intros Hrun Hd.
  assert (Hv : App.handVelocity s = 0).
  { revert Hd.
    refine (run_invariant fashionImages
              (fun s => App.isHandDetected s = false -> App.handVelocity s = 0)
              _ events App.initial s (fun _ => eq_refl) Hrun).
    clear. intros s e s' Inv.
    destruct e as [[y d|b]|e]; cbn [App.step App.call App.handle].
    - intros [= <-]. unfold App.handleHandMove. state_simpl.
      destruct d; cbn [negb orb]; [|reflexivity].
      destruct (App.isModalOpen s); [discriminate|].
      destruct (JS.ltb _ _); state_simpl; discriminate.
    - destruct b; [|intros [= <-]; exact Inv].
      intro H. apply handlePinch_cases in H as [[_ ->]|[(_ & _ & ->)|(_ & img & _ & ->)]];
        state_simpl; auto.
    - intros [= <-].
      destruct e; cbn [App.handle];
        unfold App.onAnimationFrame, App.handlePointerDown, App.handlePointerMove,
          App.handlePointerUp, App.handleWheel, App.onClose;
        try destruct (_ && _); try destruct (_ || _); try destruct (App.isModalOpen s);
        state_simpl; exact Inv. }
  split; [exact Hv|]. unfold App.onAnimationFrame. rewrite Hv. reflexivity.
Qed.

Lemma no_hand_no_drift_witness :
  App.run Demo.gallery App.initial
    [App.FromHand (HandController.onHandMove 0.1 true);
     App.FromHand (HandController.onHandMove 0.5 false)]
  = Some (App.handleHandMove (App.handleHandMove App.initial 0.1 true) 0.5 false) /\
  App.handVelocity (App.handleHandMove (App.handleHandMove (@App.initial string) 0.1 true)
                      0.5 false) = 0.
Proof.
  split; [reflexivity|].
  exact (proj1 (no_hand_no_drift Demo.gallery
                  [App.FromHand (HandController.onHandMove 0.1 true);
                   App.FromHand (HandController.onHandMove 0.5 false)]
                  _ eq_refl eq_refl)).
Defined.

(** X11. The product on show is always one of the gallery.  In every state
    the component reaches, the selected product, if any, is an entry of
    [fashionImages], and while the modal is open there is a selected
    product. *)
Theorem selected_product_in_gallery {Product : Type} (fashionImages : list Product)
  (events : list App.Event) (s : App.State Product) :
  App.run fashionImages App.initial events = Some s ->
  (forall p, App.selectedProduct s = Some p -> In p fashionImages) /\
  (App.isModalOpen s = true -> exists p, App.selectedProduct s = Some p).
Proof.
  refine (run_invariant fashionImages
            (fun s => (forall p, App.selectedProduct s = Some p -> In p fashionImages) /\
                      (App.isModalOpen s = true -> exists p, App.selectedProduct s = Some p))
            _ events App.initial s _).
  - clear. intros s e s' [Hin Hopen].
    destruct e as [[y d|b]|e]; cbn [App.step App.call App.handle].
    + intros [= <-]. unfold App.handleHandMove. state_simpl.
      destruct (negb d || App.isModalOpen s); [|destruct (JS.ltb _ _)];
        state_simpl; auto.
    + destruct b; [|intros [= <-]; state_simpl; auto].
      intro H. apply handlePinch_cases in H as [[_ ->]|[(_ & _ & ->)|(_ & img & Hr & ->)]];
        state_simpl.
      * split; [exact Hin | discriminate].
      * auto.
      * apply resolve_In in Hr. split; [intros p [= <-]; exact Hr | eauto].
    + intros [= <-].
      destruct e; cbn [App.handle];
        unfold App.onAnimationFrame, App.handlePointerDown, App.handlePointerMove,
          App.handlePointerUp, App.handleWheel, App.onClose;
        try destruct (_ && _); try destruct (_ || _); try destruct (App.isModalOpen s) eqn:Hm;
        state_simpl;
        (split; [exact Hin
                | first [exact Hopen | discriminate | rewrite Hm; first [exact Hopen | discriminate]]]).
  - split; [discriminate | discriminate].
Qed.

Lemma selected_product_in_gallery_witness :
  App.run Demo.gallery App.initial [App.FromHand (HandController.onPinch true)]
  = Some Demo.inspecting /\
  In "coat"%string Demo.gallery.
Proof.
  split; [reflexivity|].
  apply (proj1 (selected_product_in_gallery Demo.gallery
                  [App.FromHand (HandController.onPinch true)] Demo.inspecting eq_refl)).
  reflexivity.
Defined.

(** ** What a pinch opens, and when *)

Lemma map_fst_combine {A B : Type} (l : list A) :
  forall l' : list B, length l = length l' -> map fst (combine l l') = l.
Proof.
  induction l as [|a l IH]; intros [|b l'] H; cbn in *; try discriminate; [reflexivity|].
  f_equal. apply IH. lia.
Qed.

Lemma map_snd_combine {A B : Type} (l : list A) :
  forall l' : list B, length l = length l' -> map snd (combine l l') = l'.
Proof.
  induction l as [|a l IH]; intros [|b l'] H; cbn in *; try discriminate; [reflexivity|].
  f_equal. apply IH. lia.
Qed.

Lemma nth_error_combine {A B : Type} (l : list A) :
  forall (l' : list B) (k : nat) (a : A) (b : B),
    nth_error (combine l l') k = Some (a, b) <->
    nth_error l k = Some a /\ nth_error l' k = Some b.
Proof.
  induction l as [|x l IH]; intros [|y l'] [|k] a b; cbn;
    try (split; [discriminate | intros [? ?]; discriminate]).
  - split; [intros [= <- <-]; auto | intros [[= <-] [= <-]]; reflexivity].
  - apply IH.
Qed.

Section Reach.

Context {Product : Type}.
Variable fashionImages : list Product.
Variable cam : Q.

Lemma nth_error_positions (k : nat) :
  nth_error (App.positions fashionImages) k
  = if Nat.ltb k (length fashionImages)
    then Some (Utils.generateRandomPosition (Z.of_nat k)) else None.
Proof.
  unfold App.positions. rewrite nth_error_map, nth_error_seq.
  destruct (Nat.ltb k (length fashionImages)); reflexivity.
Qed.

(** The scan of the gallery, by index. *)
Lemma resolve_gallery :
  exists r,
    App.resolve (App.positions fashionImages) fashionImages cam = Some r /\
    (forall img, r = Some img ->
       exists k,
         nth_error fashionImages k = Some img /\
         App.distance cam (Position.z (Utils.generateRandomPosition (Z.of_nat k))) < 1000 /\
         (forall j, (j < length fashionImages)%nat ->
            App.distance cam (Position.z (Utils.generateRandomPosition (Z.of_nat k)))
            <= App.distance cam (Position.z (Utils.generateRandomPosition (Z.of_nat j)))) /\
         (forall j, (j < k)%nat ->
            App.distance cam (Position.z (Utils.generateRandomPosition (Z.of_nat k)))
            < App.distance cam (Position.z (Utils.generateRandomPosition (Z.of_nat j))))) /\
    (r = None ->
     forall j, (j < length fashionImages)%nat ->
       1000 <= App.distance cam (Position.z (Utils.generateRandomPosition (Z.of_nat j)))).
Proof.
  pose proof (positions_length fashionImages) as Hlen.
  set (items := combine fashionImages (App.positions fashionImages)).
  assert (Hitem : forall j, (j < length fashionImages)%nat ->
            exists img, nth_error items j
                        = Some (img, Utils.generateRandomPosition (Z.of_nat j))).
  { intros j Hj. destruct (nth_error fashionImages j) as [img|] eqn:E;
      [|apply nth_error_None in E; lia].
    exists img. apply nth_error_combine. split; [exact E|].
    rewrite nth_error_positions. apply Nat.ltb_lt in Hj. now rewrite Hj. }
  assert (Hpos : forall k img p, nth_error items k = Some (img, p) ->
            nth_error fashionImages k = Some img /\
            p = Utils.generateRandomPosition (Z.of_nat k)).
  { intros k img p H. apply nth_error_combine in H as [H1 H2]. split; [exact H1|].
    rewrite nth_error_positions in H2.
    destruct (Nat.ltb k (length fashionImages)); congruence. }
  destruct (forEach_first_closest cam items) as (r & Hr & Hbest).
  unfold items in Hr. rewrite map_fst_combine, map_snd_combine in Hr by (now rewrite Hlen).
  unfold App.resolve. rewrite Hr. cbn [bind].
  destruct r as [[img|] [|d]]; unfold first_closest in Hbest;
    cbn [App.closestImg App.minDistance JS.ext_lt] in *; try contradiction.
  - destruct Hbest as (k & p & Hk & -> & Hall & Hbefore).
    destruct (Hpos _ _ _ Hk) as [Hk' ->].
    case_ltb (App.distance cam (Position.z (Utils.generateRandomPosition (Z.of_nat k)))) 1000.
    + eexists. split; [reflexivity|]. split; [|discriminate].
      intros img' [= <-]. exists k. split; [exact Hk'|]. split; [exact H|]. split.
      * intros j Hj. destruct (Hitem j Hj) as [imgj Hj']. exact (Hall _ _ Hj').
      * intros j Hj.
        assert (Hjn : (j < length fashionImages)%nat).
        { assert (k < length fashionImages)%nat by (apply nth_error_Some; congruence). lia. }
        destruct (Hitem j Hjn) as [imgj Hj']. exact (Hbefore _ _ Hj Hj').
    + eexists. split; [reflexivity|]. split; [discriminate|].
      intros _ j Hj. destruct (Hitem j Hj) as [imgj Hj'].
      eapply Qle_trans; [exact H|]. exact (Hall _ _ Hj').
  - eexists. split; [reflexivity|]. split; [discriminate|].
    intros _ j Hj. destruct (Hitem j Hj) as [imgj Hj']. rewrite Hbest in Hj'.
    destruct j; discriminate.
Qed.

End Reach.

Lemma inject_nat_succ (n : nat) :
  inject_Z (Z.of_nat (S n)) == inject_Z (Z.of_nat n) + 1.
Proof.
  rewrite Nat2Z.inj_succ. unfold Z.succ. rewrite inject_Z_plus. reflexivity.
Qed.

Lemma inject_nat_le (j n : nat) :
  (j <= n)%nat -> 0 <= inject_Z (Z.of_nat j) /\ inject_Z (Z.of_nat j) <= inject_Z (Z.of_nat n).
Proof.
  intro H. split.
  - change 0 with (inject_Z 0). rewrite <- Zle_Qle. lia.
  - rewrite <- Zle_Qle. lia.
Qed.

Lemma distance_lt_1000 (cam : Q) (j : nat) :
  App.distance cam (Position.z (Utils.generateRandomPosition (Z.of_nat j))) < 1000 <->
  400 * inject_Z (Z.of_nat j) - 1200 < cam /\ cam < 400 * inject_Z (Z.of_nat j) + 800.
Proof.
  unfold App.distance, JS.Math_abs, App.SWEET_SPOT_Z.
  rewrite generateRandomPosition_z. unfold Utils.stepDistance.
  rewrite Qabs_Qlt_condition. split; intros [? ?]; split; lra.
Qed.

Lemma reach_index (cam : Q) (n : nat) :
  -1200 < cam -> cam < 400 * inject_Z (Z.of_nat n) + 800 ->
  exists j, (j <= n)%nat /\
    App.distance cam (Position.z (Utils.generateRandomPosition (Z.of_nat j))) < 1000.
Proof.
  intro L. induction n as [|n IH]; intro U.
  - exists 0%nat. split; [lia|]. apply distance_lt_1000.
    change (inject_Z (Z.of_nat 0)) with 0 in *. split; lra.
  - destruct (Qlt_le_dec cam (400 * inject_Z (Z.of_nat n) + 800)) as [C|C].
    + destruct (IH C) as (j & Hj & Hd). exists j. split; [lia | exact Hd].
    + exists (S n). split; [lia|]. apply distance_lt_1000.
      rewrite inject_nat_succ in *. split; lra.
Qed.

(** X12. Only a pinch opens the modal, and only on an item within reach.
    If a step of the component takes the modal from closed to open, the
    event is [onPinch(true)]; the camera depth is unchanged, the gesture
    velocity is zero, and the product now selected is an entry of the
    gallery whose distance from the sweet spot is below 1000 and no larger
    than that of any other entry. *)
Theorem modal_opens_only_on_pinch {Product : Type} (fashionImages : list Product)
  (s s' : App.State Product) (e : App.Event) :
  App.step fashionImages s e = Some s' ->
  App.isModalOpen s = false ->
  App.isModalOpen s' = true ->
  e = App.FromHand (HandController.onPinch true) /\
  App.zPosition s' = App.zPosition s /\
  App.handVelocity s' = 0 /\
  exists k img,
    nth_error fashionImages k = Some img /\
    App.selectedProduct s' = Some img /\
    App.distance (App.zPosition s)
      (Position.z (Utils.generateRandomPosition (Z.of_nat k))) < 1000 /\
    (forall j, (j < length fashionImages)%nat ->
       App.distance (App.zPosition s)
         (Position.z (Utils.generateRandomPosition (Z.of_nat k)))
       <= App.distance (App.zPosition s)
            (Position.z (Utils.generateRandomPosition (Z.of_nat j)))).
Proof.
  intros Hstep Hm Hm'.
  destruct e as [[y d|b]|e]; cbn [App.step App.call App.handle] in Hstep.
  - exfalso. injection Hstep as <-. unfold App.handleHandMove in Hm'. state_simpl.
    rewrite Hm in Hm'. destruct (negb d || false); [|destruct (JS.ltb _ _)];
      state_simpl; congruence.
  - destruct b.
    2:{ exfalso. injection Hstep as <-. state_simpl. congruence. }
    split; [reflexivity|].
    apply handlePinch_cases in Hstep as [[Ho _]|[(_ & _ & ->)|(_ & img & Hr & ->)]];
      state_simpl; try congruence.
    split; [reflexivity|]. split; [reflexivity|].
    destruct (resolve_gallery fashionImages (App.zPosition s)) as (r & Hr' & Hsome & _).
    rewrite Hr in Hr'. injection Hr' as <-.
    destruct (Hsome img eq_refl) as (k & Hk & Hd & Hall & _).
    exists k, img. auto.
  - exfalso. injection Hstep as <-.
    destruct e; cbn [App.handle] in Hm';
      unfold App.onAnimationFrame, App.handlePointerDown, App.handlePointerMove,
        App.handlePointerUp, App.handleWheel, App.onClose in Hm';
      rewrite ?Hm in Hm';
      try destruct (_ && _); try destruct (_ || _);
      state_simpl; congruence.
Qed.

Lemma modal_opens_only_on_pinch_witness :
  App.step Demo.gallery App.initial (App.FromHand (HandController.onPinch true))
  = Some Demo.inspecting /\
  App.handVelocity Demo.inspecting = 0.
Proof.
  split; [reflexivity|].
  exact (proj1 (proj2 (proj2 (modal_opens_only_on_pinch Demo.gallery App.initial
                                Demo.inspecting
                                (App.FromHand (HandController.onPinch true))
                                eq_refl eq_refl eq_refl)))).
Defined.

(** X13. With a gallery of [n >= 1] products and the modal closed, a pinch
    opens the modal exactly when the camera depth lies strictly between
    -1200 and 400 * n + 400, that is when some item is closer than 1000
    to the sweet spot. *)
Theorem pinch_opens_within_range {Product : Type} (fashionImages : list Product)
  (s : App.State Product) :
  fashionImages <> [] ->
  App.isModalOpen s = false ->
  exists s',
    App.handlePinch fashionImages s true = Some s' /\
    (App.isModalOpen s' = true <->
     -1200 < App.zPosition s /\
     App.zPosition s < 400 * inject_Z (Z.of_nat (length fashionImages)) + 400).
Proof.
  intros Hne Hm.
  destruct (length fashionImages) as [|n] eqn:Hlen.
  { destruct fashionImages; [contradiction | discriminate]. }
  destruct (handlePinch_total fashionImages s true) as [s' Hs']. exists s'.
  split; [exact Hs'|].
  destruct (resolve_gallery fashionImages (App.zPosition s)) as (r & Hr & Hsome & Hnone).
  rewrite Hlen in *. rewrite inject_nat_succ.
  apply handlePinch_cases in Hs' as [[Ho _]|[(_ & Hr' & ->)|(_ & img & Hr' & ->)]];
    [congruence| |]; rewrite Hr in Hr'; injection Hr' as ->; state_simpl.
  - split; [congruence|]. intros [L U]. exfalso.
    destruct (reach_index (App.zPosition s) n L ltac:(lra)) as (j & Hj & Hd).
    specialize (Hnone eq_refl j ltac:(lia)). apply (Qlt_not_le _ _ Hd Hnone).
  - split; [intros _ | reflexivity].
    destruct (Hsome img eq_refl) as (k & Hk & Hd & _).
    assert (Hkn : (k <= n)%nat).
    { assert (k < length fashionImages)%nat by (apply nth_error_Some; congruence). lia. }
    apply distance_lt_1000 in Hd. destruct (inject_nat_le k n Hkn). split; lra.
Qed.

Lemma pinch_opens_within_range_witness :
  Demo.gallery <> [] /\
  exists s',
    App.handlePinch Demo.gallery Demo.scrolled true = Some s' /\
    App.isModalOpen s' = true.
Proof.
  split; [discriminate|].
  destruct (pinch_opens_within_range Demo.gallery Demo.scrolled ltac:(discriminate) eq_refl)
    as (s' & Hs' & Hiff).
  exists s'. split; [exact Hs'|]. apply Hiff. split; reflexivity.
Defined.

(** X14. Closing keeps the product and the camera.  If a pinch opens the
    modal, then releasing and pinching again closes it, and afterwards the
    product selected by the first pinch is still selected, the camera is
    where it was before the first pinch, and the gesture velocity is
    zero. *)
Theorem pinch_open_then_close {Product : Type} (fashionImages : list Product)
  (s s1 : App.State Product) :
  App.isModalOpen s = false ->
  App.handlePinch fashionImages s true = Some s1 ->
  App.isModalOpen s1 = true ->
  exists s3,
    App.run fashionImages s1
      [App.FromHand (HandController.onPinch false);
       App.FromHand (HandController.onPinch true)] = Some s3 /\
    App.isModalOpen s3 = false /\
    App.selectedProduct s3 = App.selectedProduct s1 /\
    (exists img, App.selectedProduct s3 = Some img /\ In img fashionImages) /\
    App.zPosition s3 = App.zPosition s /\
    App.handVelocity s3 = 0.
Proof.
  intros Hm Hopen Hm1.
  apply handlePinch_cases in Hopen as [[Ho _]|[(_ & _ & ->)|(_ & img & Hr & ->)]];
    [congruence | state_simpl; congruence |].
  cbn [App.run App.step App.call bind]. unfold App.handlePinch. state_simpl.
  eexists. split; [reflexivity|]. state_simpl.
  split; [reflexivity|]. split; [reflexivity|]. split; [|auto].
  exists img. split; [reflexivity|]. eapply resolve_In, Hr.
Qed.

Lemma pinch_open_then_close_witness :
  App.handlePinch Demo.gallery App.initial true = Some Demo.inspecting /\
  exists s3,
    App.run Demo.gallery Demo.inspecting
      [App.FromHand (HandController.onPinch false);
       App.FromHand (HandController.onPinch true)] = Some s3 /\
    App.isModalOpen s3 = false /\
    App.selectedProduct s3 = Some "coat"%string.
Proof.
  split; [reflexivity|].
  destruct (pinch_open_then_close Demo.gallery App.initial Demo.inspecting
              eq_refl eq_refl eq_refl) as (s3 & Hr & Hm & Hsel & _).
  exists s3. auto.
Defined.

(** ** The detection loop *)

Section Captures.

Variable Math_sqrt : Q -> Q.

Lemma handPinching_fails (landmarks : list Landmark.t) :
  HandController.handPinching Math_sqrt landmarks = None <-> (length landmarks < 10)%nat.
Proof.
  split.
  - intro H. destruct (Nat.lt_ge_cases (length landmarks) 10) as [L|L]; [exact L|].
    destruct (handPinching_total Math_sqrt landmarks L) as [b Hb]. congruence.
  - intro L. unfold HandController.handPinching.
    assert (H9 : nth_error landmarks 9 = None) by (apply nth_error_None; lia).
    destruct (nth_error landmarks 4); cbn [bind]; [|reflexivity].
    destruct (nth_error landmarks 8); cbn [bind]; [|reflexivity].
    destruct (nth_error landmarks 0); cbn [bind]; [|reflexivity].
    now rewrite H9.
Qed.

Lemma predictWebcam_fails (w : bool) (frame : HandController.Capture) :
  HandController.predictWebcam Math_sqrt w frame = None <->
  exists landmarks hands,
    frame = HandController.Results (Some (landmarks :: hands)) /\
    (length landmarks < 10)%nat.
Proof.
  split.
  - destruct frame as [|[[|landmarks hands]|]]; cbn [HandController.predictWebcam];
      try discriminate; try (destruct w; discriminate).
    intro H. exists landmarks, hands. split; [reflexivity|].
    apply handPinching_fails.
    destruct (HandController.handPinching Math_sqrt landmarks) as [b|] eqn:Hb; [|reflexivity].
    destruct (handPinching_nth9 _ _ _ Hb) as [l9 H9]. rewrite H9 in H. cbn [bind] in H.
    destruct (negb _); discriminate.
  - intros (landmarks & hands & -> & L). cbn [HandController.predictWebcam].
    assert (H9 : nth_error landmarks 9 = None) by (apply nth_error_None; lia).
    now rewrite H9.
Qed.

Lemma predictWebcam_pinchEvents (w w' : bool) (frame : HandController.Capture)
  (cs : list HandController.Callback) :
  HandController.predictWebcam Math_sqrt w frame = Some (w', cs) ->
  HandController.pinchEvents cs = if Bool.eqb w' w then [] else [w'].
Proof.
  destruct frame as [|[[|landmarks hands]|]]; cbn [HandController.predictWebcam].
  - intros [= <- <-]. now rewrite eqb_reflx.
  - destruct w; intros [= <- <-]; reflexivity.
  - destruct (nth_error landmarks 9); cbn [bind]; [|discriminate].
    destruct (HandController.handPinching Math_sqrt landmarks) as [b|];
      cbn [bind]; [|discriminate].
    destruct b, w; intros [= <- <-]; reflexivity.
  - destruct w; intros [= <- <-]; reflexivity.
Qed.

Lemma last_app_default {A : Type} (l1 l2 : list A) :
  forall d : A, last (l1 ++ l2) d = last l2 (last l1 d).
Proof.
  induction l1 as [|a l1 IH]; intro d; [reflexivity|].
  change ((a :: l1) ++ l2) with (a :: (l1 ++ l2)).
  now rewrite !last_cons_default, IH.
Qed.

Lemma alternating_app (l1 l2 : list bool) :
  forall w, alternating w l1 -> alternating (last l1 w) l2 -> alternating w (l1 ++ l2).
Proof.
  induction l1 as [|b l1 IH]; intros w H1 H2; cbn [app]; [exact H2|].
  destruct H1 as [Hb H1]. split; [exact Hb|].
  apply IH; [exact H1|]. now rewrite last_cons_default in H2.
Qed.

End Captures.

Lemma calls_total {Product : Type} (fashionImages : list Product)
  (cs : list HandController.Callback) :
  forall s : App.State Product, exists s', App.calls fashionImages s cs = Some s'.
Proof.
  induction cs as [|c cs IH]; intro s; cbn [App.calls]; [eauto|].
  destruct (step_total fashionImages s (App.FromHand c)) as [s1 H1].
  cbn [App.step] in H1. rewrite H1. cbn [bind]. apply IH.
Qed.

(** X15. The gesture code throws only on a short hand.  One run of
    [predictWebcam] fails exactly when the first detected hand has fewer
    than ten landmarks, and it fails before any callback is called; a step
    of the mounted scene fails in that case and in no other. *)
Theorem predictWebcam_throws_iff_short_hand (Math_sqrt : Q -> Q) {Product : Type}
  (fashionImages : list Product) (st : Scene.State Product) :
  (forall frame,
      HandController.predictWebcam Math_sqrt (Scene.wasPinchingRef st) frame = None <->
      exists landmarks hands,
        frame = HandController.Results (Some (landmarks :: hands)) /\
        (length landmarks < 10)%nat) /\
  (forall frame,
      Scene.step Math_sqrt fashionImages st (Scene.Webcam frame) = None <->
      exists landmarks hands,
        frame = HandController.Results (Some (landmarks :: hands)) /\
        (length landmarks < 10)%nat) /\
  (forall e, Scene.step Math_sqrt fashionImages st (Scene.UI e) <> None).
Proof.
  split; [intro frame; apply predictWebcam_fails|]. split; [|discriminate].
  intro frame. rewrite <- (predictWebcam_fails Math_sqrt (Scene.wasPinchingRef st) frame).
  cbn [Scene.step].
  destruct (HandController.predictWebcam Math_sqrt (Scene.wasPinchingRef st) frame)
    as [[w cs]|]; cbn [bind fst snd]; [|split; reflexivity].
  destruct (calls_total fashionImages cs (Scene.app st)) as [s' ->]. cbn [bind].
  split; discriminate.
Qed.

(** X16. Successive [onPinch] calls always carry opposite values.  Over
    any sequence of captures that the loop gets through, the [onPinch]
    calls alternate, the first being the opposite of the state latched at
    the start, and the state latched at the end is that of the last call
    (or the initial one when there was none). *)
Theorem pinch_calls_alternate (Math_sqrt : Q -> Q) (frames : list HandController.Capture)
  (w w' : bool) (calls : list HandController.Callback) :
  HandController.loop Math_sqrt w frames = Some (w', calls) ->
  alternating w (HandController.pinchEvents calls) /\
  w' = last (HandController.pinchEvents calls) w.
Proof.
  revert w w' calls.
  induction frames as [|f frames IH]; intros w w' calls; cbn [HandController.loop].
  - intros [= <- <-]. split; [exact I | reflexivity].
  - destruct (HandController.predictWebcam Math_sqrt w f) as [[w1 c1]|] eqn:H1;
      cbn [bind fst snd]; [|discriminate].
    destruct (HandController.loop Math_sqrt w1 frames) as [[w2 c2]|] eqn:H2;
      cbn [bind fst snd]; [|discriminate].
    intros [= <- <-]. destruct (IH _ _ _ H2) as [Ha Hl].
    pose proof (predictWebcam_pinchEvents _ _ _ _ _ H1) as E1.
    pose proof (predictWebcam_last Math_sqrt _ _ _ _ H1) as L1.
    unfold HandController.pinchEvents in *. rewrite flat_map_app.
    split.
    + apply alternating_app.
      * rewrite E1. destruct w1, w; cbn; auto.
      * now rewrite L1.
    + rewrite last_app_default, L1. exact Hl.
Qed.

Lemma pinch_calls_alternate_witness :
  exists calls,
    HandController.loop sqrt_fix false
      [Demo.seen Demo.pinchedHand; HandController.NotReady; Demo.seen Demo.pinchedHand;
       Demo.noHand; Demo.seen Demo.pinchedHand]
    = Some (true, calls) /\
    alternating false (HandController.pinchEvents calls).
Proof.
  eexists. split; [vm_compute; reflexivity|].
  refine (proj1 (pinch_calls_alternate sqrt_fix
                   [Demo.seen Demo.pinchedHand; HandController.NotReady;
                    Demo.seen Demo.pinchedHand; Demo.noHand; Demo.seen Demo.pinchedHand]
                   false true _ _)).
  vm_compute. reflexivity.
Defined.

(** ** The pinch test and the place of the hand *)

Lemma sqrt_fix_floor (q : Q) :
  sqrt_fix q = Z.sqrt (Qfloor (q * inject_Z (10 ^ 16))) # 10 ^ 8.
Proof.
  unfold sqrt_fix. destruct q as [n d]. cbn [Qnum Qden Qmult inject_Z Qfloor].
  now rewrite Pos.mul_1_r.
Qed.

Lemma sqrt_fix_proper (a b : Q) : a == b -> sqrt_fix a == sqrt_fix b.
Proof.
  intro H. rewrite !sqrt_fix_floor.
  assert (E : Qfloor (a * inject_Z (10 ^ 16)) = Qfloor (b * inject_Z (10 ^ 16))).
  { apply Qfloor_comp. now rewrite H. }
  now rewrite E.
Qed.

Section Placement.

Variable Math_sqrt : Q -> Q.
Hypothesis Math_sqrt_proper : forall a b, a == b -> Math_sqrt a == Math_sqrt b.

Lemma ltb_proper (a a' b : Q) : a == a' -> JS.ltb a b = JS.ltb a' b.
Proof.
  intro H. case_ltb a b; symmetry; [apply ltb_true | apply ltb_false]; now rewrite <- H.
Qed.

Lemma or_else_proper (a a' b : Q) : a == a' -> JS.or_else a b == JS.or_else a' b.
Proof.
  intro H. unfold JS.or_else.
  destruct (Qeq_bool a 0) eqn:E, (Qeq_bool a' 0) eqn:E'; try reflexivity; try exact H.
  - apply Qeq_bool_eq in E. apply Qeq_bool_neq in E'. rewrite <- H in E'. contradiction.
  - apply Qeq_bool_eq in E'. apply Qeq_bool_neq in E. rewrite H in E. contradiction.
Qed.

Lemma isPinching_shift (dx dy : Q) (thumbTip indexTip wrist middleMCP : Landmark.t) :
  HandController.isPinching Math_sqrt (shift dx dy thumbTip) (shift dx dy indexTip)
    (shift dx dy wrist) (shift dx dy middleMCP)
  = HandController.isPinching Math_sqrt thumbTip indexTip wrist middleMCP.
Proof.
  unfold HandController.isPinching. apply ltb_proper.
  unfold HandController.normalizedPinch, HandController.divisor.
  assert (Hp : HandController.pinchDistance Math_sqrt (shift dx dy thumbTip) (shift dx dy indexTip)
               == HandController.pinchDistance Math_sqrt thumbTip indexTip).
  { unfold HandController.pinchDistance, JS.Math_pow2, shift. cbn [Landmark.x Landmark.y].
    apply Math_sqrt_proper. ring. }
  assert (Hs : HandController.handScale Math_sqrt (shift dx dy wrist) (shift dx dy middleMCP)
               == HandController.handScale Math_sqrt wrist middleMCP).
  { unfold HandController.handScale, JS.Math_pow2, shift. cbn [Landmark.x Landmark.y].
    apply Math_sqrt_proper. ring. }
  rewrite Hp, (or_else_proper _ _ 1 Hs). reflexivity.
Qed.

End Placement.

(** X17. The pinch test does not depend on where the hand is in the frame.
    For a square root that respects equality of numbers, moving every
    landmark of a hand by the same offset leaves the pinch boolean of the
    hand unchanged, including the cases in which it is undefined. *)
Theorem pinch_is_translation_invariant (Math_sqrt : Q -> Q) (dx dy : Q)
  (landmarks : list Landmark.t) :
  (forall a b, a == b -> Math_sqrt a == Math_sqrt b) ->
  HandController.handPinching Math_sqrt (map (shift dx dy) landmarks)
  = HandController.handPinching Math_sqrt landmarks /\
  HandController.framePinching Math_sqrt
    (HandController.Results (Some [map (shift dx dy) landmarks]))
  = HandController.framePinching Math_sqrt (HandController.Results (Some [landmarks])).
Proof.
  intro Hproper.
  assert (E : HandController.handPinching Math_sqrt (map (shift dx dy) landmarks)
              = HandController.handPinching Math_sqrt landmarks).
  { unfold HandController.handPinching. rewrite !nth_error_map.
    destruct (nth_error landmarks 4) as [thumbTip|]; cbn [option_map bind]; [|reflexivity].
    destruct (nth_error landmarks 8) as [indexTip|]; cbn [option_map bind]; [|reflexivity].
    destruct (nth_error landmarks 0) as [wrist|]; cbn [option_map bind]; [|reflexivity].
    destruct (nth_error landmarks 9) as [middleMCP|]; cbn [option_map bind]; [|reflexivity].
    f_equal. now apply isPinching_shift. }
  split; [exact E|]. cbn [HandController.framePinching]. exact E.
Qed.

Lemma pinch_is_translation_invariant_witness :
  HandController.handPinching sqrt_fix (map (shift 0.1 (-0.2)) Demo.pinchedHand)
  = HandController.handPinching sqrt_fix Demo.pinchedHand.
Proof.
  exact (proj1 (pinch_is_translation_invariant sqrt_fix 0.1 (-0.2) Demo.pinchedHand
                  sqrt_fix_proper)).
Defined.

(** ** Captures without an edge *)

Lemma predictWebcam_steady (Math_sqrt : Q -> Q) (w : bool)
  (frame : HandController.Capture) :
  HandController.framePinching Math_sqrt frame = Some w ->
  exists y d,
    HandController.predictWebcam Math_sqrt w frame
    = Some (w, [HandController.onHandMove y d]).
Proof.
  destruct frame as [|[[|landmarks hands]|]];
    cbn [HandController.framePinching HandController.predictWebcam]; try discriminate.
  - intros [= <-]. eauto.
  - intro Hb. destruct (handPinching_nth9 _ _ _ Hb) as [l9 ->]. rewrite Hb. cbn [bind].
    rewrite eqb_reflx. cbn [negb]. eauto.
  - intros [= <-]. eauto.
Qed.

Lemma handleHandMove_keeps {Product : Type} (s : App.State Product) (y : Q) (d : bool) :
  App.isModalOpen (App.handleHandMove s y d) = App.isModalOpen s /\
  App.selectedProduct (App.handleHandMove s y d) = App.selectedProduct s /\
  App.zPosition (App.handleHandMove s y d) = App.zPosition s /\
  App.isHandDetected (App.handleHandMove s y d) = d.
Proof.
  unfold App.handleHandMove. state_simpl.
  destruct (negb d || App.isModalOpen s); [|destruct (JS.ltb _ _)]; state_simpl; auto.
Qed.

(** X18. One physical pinch is one action.  A capture whose pinch boolean
    equals the latched one (a pinch that is held, or a hand that stays
    open or away) goes through and leaves the modal, the selected product,
    the camera depth and both pinch states as they were. *)
Theorem steady_capture_keeps_modal (Math_sqrt : Q -> Q) {Product : Type}
  (fashionImages : list Product) (st : Scene.State Product)
  (frame : HandController.Capture) :
  HandController.framePinching Math_sqrt frame = Some (Scene.wasPinchingRef st) ->
  exists st',
    Scene.step Math_sqrt fashionImages st (Scene.Webcam frame) = Some st' /\
    Scene.wasPinchingRef st' = Scene.wasPinchingRef st /\
    App.isPinching (Scene.app st') = App.isPinching (Scene.app st) /\
    App.isModalOpen (Scene.app st') = App.isModalOpen (Scene.app st) /\
    App.selectedProduct (Scene.app st') = App.selectedProduct (Scene.app st) /\
    App.zPosition (Scene.app st') = App.zPosition (Scene.app st).
Proof.
  intro Hb. destruct (predictWebcam_steady Math_sqrt _ frame Hb) as (y & d & Hp).
  cbn [Scene.step]. rewrite Hp. cbn [bind fst snd App.calls App.call].
  eexists. split; [reflexivity|]. cbn [Scene.wasPinchingRef Scene.app].
  destruct (handleHandMove_keeps (Scene.app st) y d) as (Hm & Hsel & Hz & _).
  split; [reflexivity|]. split; [apply handleHandMove_isPinching|]. auto.
Qed.

Lemma steady_capture_keeps_modal_witness :
  HandController.framePinching sqrt_fix (Demo.seen Demo.pinchedHand)
  = Some (Scene.wasPinchingRef Demo.latched) /\
  exists st',
    Scene.step sqrt_fix Demo.gallery Demo.latched (Scene.Webcam (Demo.seen Demo.pinchedHand))
    = Some st' /\
    App.isModalOpen (Scene.app st') = true.
Proof.
  assert (Hb : HandController.framePinching sqrt_fix (Demo.seen Demo.pinchedHand)
               = Some (Scene.wasPinchingRef Demo.latched)) by (vm_compute; reflexivity).
  split; [exact Hb|].
  destruct (steady_capture_keeps_modal sqrt_fix Demo.gallery Demo.latched
              (Demo.seen Demo.pinchedHand) Hb) as (st' & Hs & _ & _ & Hm & _).
  exists st'. split; [exact Hs|]. rewrite Hm. reflexivity.
Defined.

(** X19. The hand indicator follows the last capture.  After a capture
    that got as far as detection, [isHandDetected] tells whether a hand
    was in it, and when none was the gesture velocity is zero. *)
Theorem hand_indicator_follows_capture (Math_sqrt : Q -> Q) {Product : Type}
  (fashionImages : list Product) (st st' : Scene.State Product)
  (landmarks : option (list (list Landmark.t))) :
  Scene.step Math_sqrt fashionImages st (Scene.Webcam (HandController.Results landmarks))
  = Some st' ->
  App.isHandDetected (Scene.app st')
  = negb (HandController.handless (HandController.Results landmarks)) /\
  (HandController.handless (HandController.Results landmarks) = true ->
   App.handVelocity (Scene.app st') = 0).
Proof.
  cbn [Scene.step].
  destruct (HandController.predictWebcam Math_sqrt (Scene.wasPinchingRef st)
              (HandController.Results landmarks)) as [[w cs]|] eqn:Hp;
    cbn [bind fst snd]; [|discriminate].
  assert (Hcs : exists y b,
             (cs = [HandController.onHandMove y
                      (negb (HandController.handless (HandController.Results landmarks)))]
              \/ cs = [HandController.onHandMove y
                         (negb (HandController.handless (HandController.Results landmarks)));
                       HandController.onPinch b]) /\
             (HandController.handless (HandController.Results landmarks) = true -> b = false)).
  { destruct landmarks as [[|lm hands]|]; cbn [HandController.predictWebcam] in Hp.
    - destruct (Scene.wasPinchingRef st); injection Hp as <- <-;
        exists 0.5, false; cbn; auto.
    - destruct (nth_error lm 9) as [l9|]; cbn [bind] in Hp; [|discriminate].
      destruct (HandController.handPinching Math_sqrt lm) as [b|]; cbn [bind] in Hp;
        [|discriminate].
      destruct (negb _); injection Hp as <- <-; exists (Landmark.y l9), b; cbn;
        split; auto; discriminate.
    - destruct (Scene.wasPinchingRef st); injection Hp as <- <-;
        exists 0.5, false; cbn; auto. }
  destruct Hcs as (y & b & [-> | ->] & Hb); cbn [App.calls App.call bind].
  - intros [= <-]. cbn [Scene.app].
    destruct (handleHandMove_keeps (Scene.app st) y
                (negb (HandController.handless (HandController.Results landmarks))))
      as (_ & _ & _ & Hd).
    split; [exact Hd|]. intro Hl. apply velocity_unset. left.
    unfold HandController.handless in Hl. now rewrite Hl.
  - destruct (App.handlePinch fashionImages _ b) as [s2|] eqn:H2; cbn [bind]; [|discriminate].
    intros [= <-]. cbn [Scene.app].
    set (d := negb (HandController.handless (HandController.Results landmarks))) in *.
    set (s1 := App.handleHandMove (Scene.app st) y d) in *.
    assert (Hd1 : App.isHandDetected s1 = d) by apply handleHandMove_keeps.
    split.
    + destruct b.
      * apply handlePinch_cases in H2
          as [[_ ->]|[(_ & _ & ->)|(_ & img & _ & ->)]]; state_simpl; exact Hd1.
      * unfold App.handlePinch in H2. injection H2 as <-. state_simpl. exact Hd1.
    + intro Hl. rewrite (Hb Hl) in H2. unfold App.handlePinch in H2.
      injection H2 as <-. state_simpl. unfold s1. apply velocity_unset.
      left. unfold d, HandController.handless in *. now rewrite Hl.
Qed.

Lemma hand_indicator_follows_capture_witness :
  exists st',
    Scene.step sqrt_fix Demo.gallery Demo.latched
      (Scene.Webcam (HandController.Results (Some []))) = Some st' /\
    App.isHandDetected (Scene.app st') = false.
Proof.
  eexists. split; [vm_compute; reflexivity|].
  refine (proj1 (hand_indicator_follows_capture sqrt_fix Demo.gallery Demo.latched _
                   (Some []) _)).
  vm_compute. reflexivity.
Defined.

(** ** The integration of the velocity *)

(** X20. The animation frame is a steady integrator.  With the modal
    closed and a gesture velocity above 0.1 in absolute value, [n] frames
    move the camera by [n] times the velocity and change nothing else of
    the modal and the velocity; with a velocity of at most 0.1 in absolute
    value any number of frames leaves the state as it is. *)
Theorem animation_frames_integrate {Product : Type} (s : App.State Product) (n : nat) :
  App.isModalOpen s = false ->
  (0.1 < Qabs (App.handVelocity s) ->
   App.zPosition (Nat.iter n App.onAnimationFrame s)
   == App.zPosition s + inject_Z (Z.of_nat n) * App.handVelocity s /\
   App.handVelocity (Nat.iter n App.onAnimationFrame s) = App.handVelocity s /\
   App.isModalOpen (Nat.iter n App.onAnimationFrame s) = false) /\
  (Qabs (App.handVelocity s) <= 0.1 -> Nat.iter n App.onAnimationFrame s = s).
Proof.
  intro Hm. split.
  - intro Hv. induction n as [|n IH].
    + change (Nat.iter 0 App.onAnimationFrame s) with s.
      split; [change (inject_Z (Z.of_nat 0)) with 0; ring | auto].
    + destruct IH as (Hz & Hvel & Hopen).
      change (Nat.iter (S n) App.onAnimationFrame s)
        with (App.onAnimationFrame (Nat.iter n App.onAnimationFrame s)).
      set (s' := Nat.iter n App.onAnimationFrame s) in *.
      unfold App.onAnimationFrame, JS.gtb, JS.Math_abs. rewrite Hopen, Hvel.
      apply ltb_true in Hv. rewrite Hv. cbn [andb negb]. state_simpl.
      split; [|auto]. rewrite Hz, inject_nat_succ. ring.
  - intro Hv. induction n as [|n IH]; [reflexivity|].
    change (Nat.iter (S n) App.onAnimationFrame s)
      with (App.onAnimationFrame (Nat.iter n App.onAnimationFrame s)). rewrite IH.
    unfold App.onAnimationFrame, JS.gtb, JS.Math_abs.
    apply ltb_false in Hv. now rewrite Hv.
Qed.

Lemma animation_frames_integrate_witness :
  App.isModalOpen (App.handleHandMove (@App.initial string) 0.1 true) = false /\
  App.zPosition (Nat.iter 4 App.onAnimationFrame
                   (App.handleHandMove (@App.initial string) 0.1 true)) == 25.
Proof.
  split; [reflexivity|].
  destruct (animation_frames_integrate (App.handleHandMove (@App.initial string) 0.1 true) 4
              eq_refl) as [H _].
  rewrite (proj1 (H eq_refl)). reflexivity.
Defined.

(** ** Items near and past the camera *)

Lemma distance_le_200 (cam : Q) (j : nat) :
  App.distance cam (Position.z (Utils.generateRandomPosition (Z.of_nat j))) <= 200 <->
  400 * inject_Z (Z.of_nat j) - 400 <= cam /\ cam <= 400 * inject_Z (Z.of_nat j).
Proof.
  unfold App.distance, JS.Math_abs, App.SWEET_SPOT_Z.
  rewrite generateRandomPosition_z. unfold Utils.stepDistance.
  rewrite Qabs_Qle_condition. split; intros [? ?]; split; lra.
Qed.

Lemma near_index (cam : Q) (n : nat) :
  -400 <= cam -> cam <= 400 * inject_Z (Z.of_nat n) ->
  exists j, (j <= n)%nat /\
    App.distance cam (Position.z (Utils.generateRandomPosition (Z.of_nat j))) <= 200.
Proof.
  intro L. induction n as [|n IH]; intro U.
  - exists 0%nat. split; [lia|]. apply distance_le_200.
    change (inject_Z (Z.of_nat 0)) with 0 in *. split; lra.
  - destruct (Qlt_le_dec cam (400 * inject_Z (Z.of_nat n))) as [C|C].
    + destruct (IH (Qlt_le_weak _ _ C)) as (j & Hj & Hd). exists j. split; [lia | exact Hd].
    + exists (S n). split; [lia|]. apply distance_le_200.
      rewrite inject_nat_succ in *. split; lra.
Qed.

(** X21. Inside the tunnel a pinch always finds a close item.  With a
    gallery of [n >= 1] products, the modal closed and the camera depth
    between -400 and 400 * n - 400, a pinch opens the modal on a product
    that is at most 200 from the sweet spot. *)
Theorem pinch_inside_tunnel_opens_near {Product : Type} (fashionImages : list Product)
  (s : App.State Product) :
  fashionImages <> [] ->
  App.isModalOpen s = false ->
  -400 <= App.zPosition s ->
  App.zPosition s <= 400 * inject_Z (Z.of_nat (length fashionImages)) - 400 ->
  exists s' k img,
    App.handlePinch fashionImages s true = Some s' /\
    App.isModalOpen s' = true /\
    App.selectedProduct s' = Some img /\
    nth_error fashionImages k = Some img /\
    App.distance (App.zPosition s)
      (Position.z (Utils.generateRandomPosition (Z.of_nat k))) <= 200.
Proof.
  intros Hne Hm L U.
  destruct (length fashionImages) as [|n] eqn:Hlen.
  { destruct fashionImages; [contradiction | discriminate]. }
  rewrite inject_nat_succ in U.
  destruct (near_index (App.zPosition s) n L ltac:(lra)) as (j & Hj & Hd).
  destruct (resolve_gallery fashionImages (App.zPosition s)) as (r & Hr & Hsome & Hnone).
  rewrite Hlen in *.
  destruct r as [img|].
  - destruct (Hsome img eq_refl) as (k & Hk & _ & Hall & _).
    unfold App.handlePinch. state_simpl. rewrite Hm, Hr. cbn [bind].
    eexists. exists k, img. split; [reflexivity|]. state_simpl.
    split; [reflexivity|]. split; [reflexivity|]. split; [exact Hk|].
    eapply Qle_trans; [apply (Hall j); lia | exact Hd].
  - exfalso. specialize (Hnone eq_refl j ltac:(lia)). lra.
Qed.

Lemma pinch_inside_tunnel_opens_near_witness :
  Demo.gallery <> [] /\
  exists s', App.handlePinch Demo.gallery Demo.scrolled true = Some s' /\
             App.isModalOpen s' = true.
Proof.
  split; [discriminate|].
  destruct (pinch_inside_tunnel_opens_near Demo.gallery Demo.scrolled)
    as (s' & k & img & Hs & Hm & _);
    [discriminate | reflexivity | discriminate | discriminate |].
  exists s'. auto.
Defined.



